(** * xmlToXls: surgical records from a hospital XML export

    A shallow embedding of [src/components/xmlToXls.tsx].  The file holds the
    two variants of the converter component: the monthly one (one workbook
    per month, [parseXML] rethrows processing errors) and the single-workbook
    one ([parseXML] records the error with [setError] and returns what was
    collected).  [sanitizeXML] and [processElement] are the same text in
    both variants and are embedded once.  The form handlers of both
    variants are embedded as the list of their calls to the state setters
    and to the spreadsheet writer. *)

From Stdlib Require Import ZArith String Ascii Bool Lia List.
From Stdlib Require Import Numbers.DecimalString.
From Equations Require Import Equations.
Import ListNotations.

Open Scope Z_scope.

(** ** JavaScript strings

    A JS string is a sequence of UTF-16 code units; a code unit is kept as
    a [Z] in [0, 65535]. *)

Definition jsstring := list Z.

Definition code_unit (a : ascii) : Z := Z.of_N (N_of_ascii a).

(** The JS string with the same characters as an ASCII literal. *)
Definition str (s : string) : jsstring := map code_unit (list_ascii_of_string s).

Fixpoint eqb_str (s t : jsstring) : bool :=
  match s, t with
  | [], [] => true
  | c :: s', d :: t' => (c =? d) && eqb_str s' t'
  | _, _ => false
  end.

(** [s.charCodeAt(0)]: [None] stands for the NaN of an empty string. *)
Definition charCodeAt0 (s : jsstring) : option Z := hd_error s.

(** [s.slice(1)]. *)
Definition slice1 (s : jsstring) : jsstring := tl s.

(** ** The regular expression [/<(\/?)\w+\$/g]

    Code units of the characters the expression names. *)

Definition LT : Z := 60.      (* < *)
Definition SLASH : Z := 47.   (* / *)
Definition DOLLAR : Z := 36.  (* $ *)
Definition BOM : Z := 0xfeff.

(** [\w] without the [u] and [i] flags: [A-Za-z0-9_]. *)
Definition is_word (c : Z) : bool :=
  ((48 <=? c) && (c <=? 57)) || ((65 <=? c) && (c <=? 90))
  || (c =? 95) || ((97 <=? c) && (c <=? 122)).

(** The longest run of word characters at the head of [s], and what
    follows it. *)
Fixpoint span_word (s : jsstring) : jsstring * jsstring :=
  match s with
  | c :: s' =>
      if is_word c then let (w, r) := span_word s' in (c :: w, r)
      else ([], s)
  | [] => ([], [])
  end.

(** [\w+\$] at the head of [s]; the result is the text after the match.
    [\w+] is greedy; giving characters back never helps, because the
    character after a shorter run is a word character and not [$]. *)
Definition match_word_dollar (s : jsstring) : option jsstring :=
  match span_word s with
  | (_ :: _, c :: rest) => if c =? DOLLAR then Some rest else None
  | _ => None
  end.

(** One attempt of the whole expression at the head of [s]: capture group 1
    and the text after the match.  [(\/?)] first takes the slash when there
    is one and falls back to the empty match when the rest then fails. *)
Definition regex_match_at (s : jsstring) : option (jsstring * jsstring) :=
  match s with
  | c :: s1 =>
      if c =? LT then
        match s1 with
        | c1 :: s2 =>
            if c1 =? SLASH then
              match match_word_dollar s2 with
              | Some rest => Some ([SLASH], rest)
              | None =>
                  match match_word_dollar s1 with
                  | Some rest => Some ([], rest)
                  | None => None
                  end
              end
            else
              match match_word_dollar s1 with
              | Some rest => Some ([], rest)
              | None => None
              end
        | [] => None
        end
      else None
  | [] => None
  end.

Arguments regex_match_at : simpl never.

Lemma span_word_length (s : jsstring) :
  (length (snd (span_word s)) <= length s)%nat.
Proof.
  induction s as [|c s IH]; simpl; [lia|].
  destruct (is_word c); simpl; [|lia].
  destruct (span_word s) as [w r]; simpl in *; lia.
Qed.

Lemma match_word_dollar_length (s rest : jsstring) :
  match_word_dollar s = Some rest -> (length rest < length s)%nat.
Proof.
  unfold match_word_dollar. intros H.
  pose proof (span_word_length s) as L.
  destruct (span_word s) as [[|a w] [|c r]]; try discriminate.
  destruct (c =? DOLLAR); [|discriminate].
  injection H as <-. simpl in L. lia.
Qed.

Lemma regex_match_at_length (s g1 rest : jsstring) :
  regex_match_at s = Some (g1, rest) -> (length rest < length s)%nat.
Proof.
  unfold regex_match_at.
  destruct s as [|c s1]; simpl; [discriminate|].
  destruct (c =? LT); [|discriminate].
  destruct s1 as [|c1 s2]; [discriminate|].
  destruct (c1 =? SLASH).
  - destruct (match_word_dollar s2) as [r|] eqn:E2.
    + intros H; injection H as _ <-.
      apply match_word_dollar_length in E2. simpl. lia.
    + destruct (match_word_dollar (c1 :: s2)) as [r|] eqn:E1; [|discriminate].
      intros H; injection H as _ <-.
      apply match_word_dollar_length in E1. simpl in *. lia.
  - destruct (match_word_dollar (c1 :: s2)) as [r|] eqn:E1; [|discriminate].
    intros H; injection H as _ <-.
    apply match_word_dollar_length in E1. simpl in *. lia.
Qed.

Definition inspect {A : Type} (a : A) : {b : A | a = b} := exist _ a eq_refl.

(** [s.replace(/<(\/?)\w+\$/g, "<$1")]: the scan tries a match at each
    position from left to right; a match is replaced by [<] followed by
    group 1 and the scan resumes after it, any other character is copied. *)
Equations? replace_tag_dollar (s : jsstring) : jsstring by wf (length s) lt :=
  replace_tag_dollar [] := [];
  replace_tag_dollar (c :: s') with inspect (regex_match_at (c :: s')) := {
    | exist _ (Some (g1, rest)) _ => LT :: g1 ++ replace_tag_dollar rest;
    | exist _ None _ => c :: replace_tag_dollar s' }.
Proof.
  exact (regex_match_at_length (c :: s') g1 rest e).
Qed.

(** [sanitizeXML] (lines 28-33 and 288-294). *)
Definition sanitizeXML (xmlString : jsstring) : jsstring :=
  let xmlString :=
    match charCodeAt0 xmlString with
    | Some c => if c =? BOM then slice1 xmlString else xmlString
    | None => xmlString
    end in
  replace_tag_dollar xmlString.

(** *** Texts on which sanitizing twice changes nothing more

    What may follow a replaced tag name: the end of the text, or a character
    that is neither a word character nor a slash (the [>] of a tag is one). *)
Definition ends_tag_name (rest : jsstring) : bool :=
  match rest with
  | [] => true
  | c :: _ => negb (is_word c) && negb (c =? SLASH)
  end.

(** Every place of [s] where the expression matches is followed by such a
    character. *)
Fixpoint dollar_tags_delimited (s : jsstring) : bool :=
  match s with
  | [] => true
  | c :: s' =>
      match regex_match_at (c :: s') with
      | Some (_, rest) => ends_tag_name rest
      | None => true
      end && dollar_tags_delimited s'
  end.

(** The text starts with two byte-order marks. *)
Definition double_BOM (s : jsstring) : bool :=
  match s with
  | c1 :: c2 :: _ => (c1 =? BOM) && (c2 =? BOM)
  | _ => false
  end.

(** ** The parsed document

    [DOMParser] is an external collaborator; its result is a tree of
    element and text nodes (a CDATA section is a text node; comments and
    processing instructions take no part in [children], [textContent] or
    [getElementsByTagName] and are left out). *)

Unset Elimination Schemes.
Inductive Node : Type :=
| Element (tagName : jsstring) (childNodes : list Node)
| Text (data : jsstring).
Set Elimination Schemes.

(** Induction on nodes, with the hypothesis for every child node. *)
Fixpoint Node_ind (P : Node -> Prop)
    (HText : forall d, P (Text d))
    (HElement : forall t cs, Forall P cs -> P (Element t cs))
    (n : Node) {struct n} : P n :=
  match n with
  | Text d => HText d
  | Element t cs =>
      HElement t cs
        ((fix all (l : list Node) : Forall P l :=
            match l with
            | [] => Forall_nil P
            | c :: l' => Forall_cons c (Node_ind P HText HElement c) (all l')
            end) cs)
  end.

Definition isElement (n : Node) : bool :=
  match n with Element _ _ => true | Text _ => false end.

Definition tagNameOf (n : Node) : jsstring :=
  match n with Element t _ => t | Text _ => [] end.

(** [element.children]: the child nodes that are elements. *)
Definition children (n : Node) : list Node :=
  match n with
  | Element _ cs => filter isElement cs
  | Text _ => []
  end.

(** [node.textContent]: the text of all descendant text nodes, in
    document order. *)
Fixpoint textContent (n : Node) : jsstring :=
  match n with
  | Text d => d
  | Element _ cs => flat_map textContent cs
  end.

(** All descendant elements of [n] in document order, [n] excluded. *)
Fixpoint descendants (n : Node) : list Node :=
  match n with
  | Text _ => []
  | Element _ cs =>
      flat_map (fun c => if isElement c then c :: descendants c else []) cs
  end.

(** [element.getElementsByTagName(name)] for a name other than ["*"]. *)
Definition getElementsByTagName (n : Node) (name : jsstring) : list Node :=
  filter (fun e => eqb_str (tagNameOf e) name) (descendants n).

(** [xmlDoc.getElementsByTagName(name)] on the document, whose only element
    child is the document element [root]. *)
Definition document_getElementsByTagName (root : Node) (name : jsstring)
  : list Node :=
  filter (fun e => eqb_str (tagNameOf e) name) (root :: descendants root).

(** [collection[0]?.textContent]: [None] is [undefined]. *)
Definition first_textContent (collection : list Node) : option jsstring :=
  match collection with
  | e :: _ => Some (textContent e)
  | [] => None
  end.

(** [value || ""] on a string or [undefined]: the empty string is falsy,
    so both it and [undefined] give [""]. *)
Definition or_empty (value : option jsstring) : jsstring :=
  match value with
  | Some s => s
  | None => []
  end.

(** [anesthesiaType !== "LOCAL"]. *)
Definition not_LOCAL (anesthesiaType : option jsstring) : bool :=
  match anesthesiaType with
  | Some s => negb (eqb_str s (str "LOCAL"))
  | None => true
  end.

(** ** Surgery records (the [Surgery] interface) *)

Record Surgery : Type := mkSurgery {
  Data_Realizacao : jsstring;   (* "Data Realização" *)
  Aviso_Cirurgia : jsstring;    (* "Aviso Cirurgia" *)
  Cirurgia : jsstring;
  Codigo_Paciente : jsstring;   (* "Código Paciente" *)
  Nome_Paciente : jsstring;     (* "Nome Paciente" *)
  Anestesista : jsstring;
  Tipo_Anestesia : jsstring     (* "Tipo Anestesia" *)
}.

(** ** Exceptions and the extraction monad

    [processElement] pushes onto the array [surgeries] of the enclosing
    [parseXML] and may throw; what was pushed before a throw stays in the
    array.  A computation therefore maps the array to the array afterwards
    together with its completion. *)

Inductive exn : Type :=
| TypeError
    (* reading a property of [undefined]; the message text is the engine's *)
| XMLParsingError (errorText : jsstring)
    (* new Error(`XML parsing error: ${errorText}`) *)
| ProcessingError (cause : exn).
    (* new Error(`Erro durante o processamento do XML: ${err.message}`) *)

Inductive completion (A : Type) : Type :=
| Normal (a : A)
| Throw (e : exn).
Arguments Normal {A} a.
Arguments Throw {A} e.

Definition M (A : Type) : Type := list Surgery -> list Surgery * completion A.

Definition ret {A : Type} (a : A) : M A := fun acc => (acc, Normal a).

Definition bind {A B : Type} (m : M A) (k : A -> M B) : M B :=
  fun acc =>
    match m acc with
    | (acc', Normal a) => k a acc'
    | (acc', Throw e) => (acc', Throw e)
    end.

Definition throw {A : Type} (e : exn) : M A := fun acc => (acc, Throw e).

(** [surgeries.push(r)]. *)
Definition push (r : Surgery) : M unit := fun acc => (acc ++ [r], Normal tt).

Notation "x <- m ;; k" := (bind m (fun x => k))
  (at level 61, m at next level, right associativity).
Notation "m ;;; k" := (bind m (fun _ => k))
  (at level 61, right associativity).

(** [for (let i = 0; i < l.length; i++) body(l[i])]. *)
Definition for_each {A : Type} (body : A -> M unit) : list A -> M unit :=
  fix loop (l : list A) : M unit :=
    match l with
    | [] => ret tt
    | x :: l' => body x ;;; loop l'
    end.

(** [collection[0]] followed by a property read: reading a property of
    [undefined] throws a TypeError. *)
Definition first_or_TypeError (collection : list Node) : M Node :=
  match collection with
  | e :: _ => ret e
  | [] => throw TypeError
  end.

(** ** [processElement] (lines 48-99 and 309-360) *)

(** The record pushed for a surgery group (lines 70-89). *)
Definition surgery_record (date : jsstring) (patientElement surgeryElement : Node)
    (anesthesiaType : option jsstring) : Surgery :=
  {| Data_Realizacao := date;
     Aviso_Cirurgia :=
       or_empty (first_textContent
         (getElementsByTagName patientElement (str "CD_AVISO_CIRURGIA")));
     Cirurgia :=
       or_empty (first_textContent
         (getElementsByTagName surgeryElement
            (str "DECODE_NVL_CIR_AVI_DS_NPADRONI")));
     Codigo_Paciente :=
       or_empty (first_textContent
         (getElementsByTagName patientElement (str "CD_PACIENTE")));
     Nome_Paciente :=
       or_empty (first_textContent
         (getElementsByTagName patientElement (str "NM_PACIENTE")));
     Anestesista :=
       or_empty (first_textContent
         (getElementsByTagName surgeryElement (str "CF_NM_ANESTESISTA")));
     Tipo_Anestesia := or_empty anesthesiaType |}.

(** Body of the loop over [gSurgeryElements] (lines 62-91).  The test
    [if (surgeryElement)] holds for every index below the length. *)
Definition process_surgery (date : jsstring) (patientElement surgeryElement : Node)
  : M unit :=
  let anesthesiaType :=
    first_textContent (getElementsByTagName surgeryElement (str "DS_TIP_ANEST")) in
  if not_LOCAL anesthesiaType then
    push (surgery_record date patientElement surgeryElement anesthesiaType)
  else ret tt.

(** Body of the loop over [patientElements] (lines 55-92). *)
Definition process_patient (date : jsstring) (patientElement : Node) : M unit :=
  surgeryElement <-
    first_or_TypeError (getElementsByTagName patientElement (str "LIST_G_CIRURGIA")) ;;
  for_each (process_surgery date patientElement)
    (getElementsByTagName surgeryElement (str "G_CIRURGIA")).

(** The [if] of lines 49-94. *)
Definition process_date_group (element : Node) : M unit :=
  if eqb_str (tagNameOf element) (str "G_DT_REALIZACAO") then
    let date :=
      or_empty (first_textContent
        (getElementsByTagName element (str "DT_REALIZACAO"))) in
    for_each (process_patient date)
      (getElementsByTagName element (str "G_NM_PACIENTE"))
  else ret tt.

(** [processElement].  The final loop runs over [element.children]; here it
    runs over all child nodes and does nothing on a text node, which is the
    same computation (lemma [processElement_children]). *)
Fixpoint processElement (element : Node) : M unit :=
  match element with
  | Text _ => ret tt
  | Element _ childNodes =>
      process_date_group element ;;;
      for_each processElement childNodes
  end.

(** ** [parseXML]

    [new DOMParser().parseFromString(text, "text/xml")] is a parameter: it
    gives the document element of the resulting document.  A text the parser
    rejects gives a document that contains a [parsererror] element. *)

(** The monthly variant of the component (lines 1-247). *)
Module Monthly.

(** [parseXML] (lines 35-111): a processing error is rethrown. *)
Definition parseXML (parseFromString : jsstring -> Node) (xmlString : jsstring)
  : completion (list Surgery) :=
  let sanitizedXml := sanitizeXML xmlString in
  let xmlDoc := parseFromString sanitizedXml in
  match document_getElementsByTagName xmlDoc (str "parsererror") with
  | e :: _ => Throw (XMLParsingError (textContent e))
  | [] =>
      match processElement xmlDoc [] with
      | (surgeries, Normal _) => Normal surgeries
      | (_, Throw err) => Throw (ProcessingError err)
      end
  end.

End Monthly.

(** The single-workbook variant of the component (lines 248-485). *)
Module SingleWorkbook.

(** [parseXML] (lines 296-372): a processing error is passed to [setError]
    and the array is returned as it stands.  The first component of the
    result is the error handed to [setError], if any. *)
Definition parseXML (parseFromString : jsstring -> Node) (xmlString : jsstring)
  : option exn * completion (list Surgery) :=
  let sanitizedXml := sanitizeXML xmlString in
  let xmlDoc := parseFromString sanitizedXml in
  match document_getElementsByTagName xmlDoc (str "parsererror") with
  | e :: _ => (None, Throw (XMLParsingError (textContent e)))
  | [] =>
      match processElement xmlDoc [] with
      | (surgeries, Normal _) => (None, Normal surgeries)
      | (surgeries, Throw err) => (Some err, Normal surgeries)
      end
  end.

End SingleWorkbook.

(** ** Where a record comes from

    [record_from doc r]: the document [doc] has a date-realization group
    [e] (the document element or a descendant), a patient group [p] below
    it, a surgery group [g] below the first surgery list [l] of [p], the
    anesthesia type of [g] is not ["LOCAL"], and [r] is the record built
    from the leaves of [e], [p] and [g]. *)

Definition anesthesiaType_of (g : Node) : option jsstring :=
  first_textContent (getElementsByTagName g (str "DS_TIP_ANEST")).

Definition date_of (e : Node) : jsstring :=
  or_empty (first_textContent (getElementsByTagName e (str "DT_REALIZACAO"))).

Definition surgery_group_in (doc e p l g : Node) : Prop :=
  In e (doc :: descendants doc) /\
  tagNameOf e = str "G_DT_REALIZACAO" /\
  In p (getElementsByTagName e (str "G_NM_PACIENTE")) /\
  hd_error (getElementsByTagName p (str "LIST_G_CIRURGIA")) = Some l /\
  In g (getElementsByTagName l (str "G_CIRURGIA")).

Definition record_from (doc : Node) (r : Surgery) : Prop :=
  exists e p l g,
    surgery_group_in doc e p l g /\
    not_LOCAL (anesthesiaType_of g) = true /\
    r = surgery_record (date_of e) p g (anesthesiaType_of g).

(** The value of a record field read from the leaf [name] below [n]: the
    text of the first such leaf, and the empty string when there is none. *)
Definition leaf_field (n : Node) (name : jsstring) (field : jsstring) : Prop :=
  match getElementsByTagName n name with
  | [] => field = []
  | l :: _ => field = textContent l
  end.

(** ** Sample documents *)

Definition leaf (name text : string) : Node :=
  Element (str name) [Text (str text)].

Definition surgery_group (fields : list Node) : Node :=
  Element (str "G_CIRURGIA") fields.

Definition patient_group (fields surgeries : list Node) : Node :=
  Element (str "G_NM_PACIENTE")
    (fields ++ [Element (str "LIST_G_CIRURGIA") surgeries]).

(** One date group with one patient and three surgery groups: general
    anesthesia, local anesthesia, and no anesthesia leaf at all. *)
Definition sample_surgery_GERAL : Node :=
  surgery_group
    [leaf "DECODE_NVL_CIR_AVI_DS_NPADRONI" "HERNIA";
     leaf "CF_NM_ANESTESISTA" "DR A"; leaf "DS_TIP_ANEST" "GERAL"].

Definition sample_surgery_LOCAL : Node :=
  surgery_group
    [leaf "DECODE_NVL_CIR_AVI_DS_NPADRONI" "SUTURA";
     leaf "CF_NM_ANESTESISTA" "DR B"; leaf "DS_TIP_ANEST" "LOCAL"].

Definition sample_surgery_no_leaf : Node :=
  surgery_group [leaf "DECODE_NVL_CIR_AVI_DS_NPADRONI" "BIOPSIA"].

Definition sample_list : Node :=
  Element (str "LIST_G_CIRURGIA")
    [sample_surgery_GERAL; sample_surgery_LOCAL; sample_surgery_no_leaf].

Definition sample_patient : Node :=
  Element (str "G_NM_PACIENTE")
    [leaf "CD_AVISO_CIRURGIA" "101"; leaf "CD_PACIENTE" "7";
     leaf "NM_PACIENTE" "ANA"; sample_list].

Definition sample_date_group : Node :=
  Element (str "G_DT_REALIZACAO")
    [leaf "DT_REALIZACAO" "15/03/24";
     Element (str "LIST_G_NM_PACIENTE") [sample_patient]].

Definition sample_doc : Node :=
  Element (str "LIST_G_DT_REALIZACAO") [sample_date_group].

(** The two records of [sample_doc]. *)
Definition sample_record_GERAL : Surgery :=
  mkSurgery (str "15/03/24") (str "101") (str "HERNIA") (str "7") (str "ANA")
    (str "DR A") (str "GERAL").

Definition sample_record_no_leaf : Surgery :=
  mkSurgery (str "15/03/24") (str "101") (str "BIOPSIA") (str "7") (str "ANA")
    [] [].

(** A second patient group without a surgery list, after a complete one. *)
Definition patient_without_list : Node :=
  Element (str "G_NM_PACIENTE") [leaf "CD_AVISO_CIRURGIA" "102"].

Definition date_group_missing_list : Node :=
  Element (str "G_DT_REALIZACAO")
    [leaf "DT_REALIZACAO" "15/03/24";
     patient_group
       [leaf "CD_AVISO_CIRURGIA" "101"]
       [surgery_group [leaf "DS_TIP_ANEST" "GERAL"]];
     patient_without_list].

Definition doc_missing_list : Node :=
  Element (str "LIST_G_DT_REALIZACAO") [date_group_missing_list].

(** The record of the complete patient group of [doc_missing_list]. *)
Definition record_before_missing_list : Surgery :=
  mkSurgery (str "15/03/24") (str "101") [] [] [] [] (str "GERAL").

(** A patient group without a surgery list and outside any date group. *)
Definition doc_stray_patient : Node :=
  Element (str "ROOT") [patient_without_list].

(** A date group nested in another date group, with one patient and one
    surgery group below the inner one. *)
Definition nested_surgery : Node :=
  surgery_group [leaf "DS_TIP_ANEST" "GERAL"].

Definition nested_patient : Node :=
  patient_group [leaf "CD_AVISO_CIRURGIA" "101"] [nested_surgery].

Definition doc_nested_dates : Node :=
  Element (str "G_DT_REALIZACAO")
    [leaf "DT_REALIZACAO" "01/01/24";
     Element (str "G_DT_REALIZACAO")
       [leaf "DT_REALIZACAO" "02/02/24"; nested_patient]].

(** ** Numbers and dates of the JS runtime

    The date code works on numbers read from the segments of a date string.
    Numbers are modelled on the integers: [NaN] and the integer values.
    [Number] is exact on the signed decimal integer literals, with the white
    space JS trims, on the empty text and on the texts that are no numeric
    literal at all.  The other numeric literals of JS (fractions, exponents,
    radix prefixes, [Infinity]) are outside this fragment: there the value
    in JS is a number that [Number] below does not give.  Every statement
    below that depends on the value read from a segment is made for segments
    inside the fragment: digit strings, missing segments, and segments that
    no numeric literal can begin ([not_numeric]). *)

Inductive number : Type :=
| NaN
| Num (z : Z).

Definition add (a b : number) : number :=
  match a, b with
  | Num x, Num y => Num (x + y)
  | _, _ => NaN
  end.

Definition sub (a b : number) : number :=
  match a, b with
  | Num x, Num y => Num (x - y)
  | _, _ => NaN
  end.

(** White space and line terminators that [Number] trims. *)
Definition is_whitespace (c : Z) : bool :=
  existsb (Z.eqb c)
    [9; 10; 11; 12; 13; 32; 160; 5760; 8232; 8233; 8239; 8287; 12288; 65279]
  || ((8192 <=? c) && (c <=? 8202)).

Fixpoint trim_start (s : jsstring) : jsstring :=
  match s with
  | c :: s' => if is_whitespace c then trim_start s' else s
  | [] => []
  end.

Definition trim (s : jsstring) : jsstring :=
  rev (trim_start (rev (trim_start s))).

Definition digit_value (c : Z) : option Z :=
  if (48 <=? c) && (c <=? 57) then Some (c - 48) else None.

Fixpoint decimal_value (acc : Z) (s : jsstring) : option Z :=
  match s with
  | [] => Some acc
  | c :: s' =>
      match digit_value c with
      | Some d => decimal_value (10 * acc + d) s'
      | None => None
      end
  end.

Definition unsigned_decimal (s : jsstring) : number :=
  match s with
  | [] => NaN
  | _ :: _ =>
      match decimal_value 0 s with
      | Some z => Num z
      | None => NaN
      end
  end.

Definition neg (a : number) : number :=
  match a with
  | Num x => Num (- x)
  | NaN => NaN
  end.

(** [Number(s)] on a string. *)
Definition Number (s : jsstring) : number :=
  match trim s with
  | [] => Num 0
  | c :: ds =>
      if c =? 43 then unsigned_decimal ds
      else if c =? 45 then neg (unsigned_decimal ds)
      else unsigned_decimal (c :: ds)
  end.

(** A character a numeric literal can begin with, once white space is
    trimmed: a digit, a sign, the dot, or the [I] of [Infinity]. *)
Definition starts_numeric_literal (c : Z) : bool :=
  ((48 <=? c) && (c <=? 57)) || (c =? 43) || (c =? 45) || (c =? 46) || (c =? 73).

(** The segment is not empty after trimming and begins with a character no
    numeric literal begins with: [Number] gives NaN, in JS as here. *)
Definition not_numeric (segment : jsstring) : bool :=
  match trim segment with
  | [] => false
  | c :: _ => negb (starts_numeric_literal c)
  end.

(** [s.split("/")]: never empty, [""] splits to [[""]]. *)
Fixpoint split_slash (s : jsstring) : list jsstring :=
  match s with
  | [] => [[]]
  | c :: s' =>
      if c =? SLASH then [] :: split_slash s'
      else
        match split_slash s' with
        | seg :: segs => (c :: seg) :: segs
        | [] => [[c]]
        end
  end.

(** *** Calendar arithmetic of ECMAScript (Date objects)

    Days are counted from 1 January 1970.  The time zone is taken with a
    constant offset, which cancels between the constructor, which reads its
    arguments as local time, and the local getters; it is left out. *)

Definition msPerDay : Z := 86400000.

Definition DayFromYear (y : Z) : Z :=
  365 * (y - 1970) + (y - 1969) / 4 - (y - 1901) / 100 + (y - 1601) / 400.

Definition DaysInYear (y : Z) : Z := DayFromYear (y + 1) - DayFromYear y.

Definition InLeapYear (y : Z) : bool := DaysInYear y =? 366.

Definition Day (t : Z) : Z := t / msPerDay.

(** The largest [y] with [DayFromYear y <= d] (lemma [YearFromDay_spec]):
    the estimate from the mean year length is off by at most one. *)
Definition YearFromDay (d : Z) : Z :=
  let y := 1970 + (400 * d) / 146097 in
  if DayFromYear (y + 1) <=? d then y + 1
  else if DayFromYear y <=? d then y
  else y - 1.

Definition YearFromTime (t : Z) : Z := YearFromDay (Day t).

(** Day within the year on which month [mn] (0 to 11) starts. *)
Definition month_start (leap : bool) (mn : Z) : Z :=
  let l := if leap then 1 else 0 in
  if mn <=? 0 then 0
  else if mn =? 1 then 31
  else if mn =? 2 then 59 + l
  else if mn =? 3 then 90 + l
  else if mn =? 4 then 120 + l
  else if mn =? 5 then 151 + l
  else if mn =? 6 then 181 + l
  else if mn =? 7 then 212 + l
  else if mn =? 8 then 243 + l
  else if mn =? 9 then 273 + l
  else if mn =? 10 then 304 + l
  else 334 + l.

Definition MonthFromTime (t : Z) : Z :=
  let y := YearFromTime t in
  let leap := InLeapYear y in
  let dayWithinYear := Day t - DayFromYear y in
  if dayWithinYear <? month_start leap 1 then 0
  else if dayWithinYear <? month_start leap 2 then 1
  else if dayWithinYear <? month_start leap 3 then 2
  else if dayWithinYear <? month_start leap 4 then 3
  else if dayWithinYear <? month_start leap 5 then 4
  else if dayWithinYear <? month_start leap 6 then 5
  else if dayWithinYear <? month_start leap 7 then 6
  else if dayWithinYear <? month_start leap 8 then 7
  else if dayWithinYear <? month_start leap 9 then 8
  else if dayWithinYear <? month_start leap 10 then 9
  else if dayWithinYear <? month_start leap 11 then 10
  else 11.

(** [MakeDay]: months beyond 0..11 carry into the year, days beyond the
    month carry into the following months. *)
Definition MakeDay (year month date : Z) : Z :=
  let ym := year + month / 12 in
  let mn := month mod 12 in
  DayFromYear ym + month_start (InLeapYear ym) mn + date - 1.

(** A Date object: its time value in milliseconds, [None] for NaN
    (Invalid Date). *)
Definition Date : Type := option Z.

Definition TimeClip (t : Z) : Date :=
  if Z.abs t <=? 8640000000000000 then Some t else None.

(** [new Date(year, monthIndex, day)]. *)
Definition new_Date (year monthIndex day : number) : Date :=
  match year, monthIndex, day with
  | Num y, Num m, Num dt =>
      let yr := if (0 <=? y) && (y <=? 99) then 1900 + y else y in
      TimeClip (MakeDay yr m dt * msPerDay)
  | _, _, _ => None
  end.

Definition getFullYear (d : Date) : number :=
  match d with
  | Some t => Num (YearFromTime t)
  | None => NaN
  end.

Definition getMonth (d : Date) : number :=
  match d with
  | Some t => Num (MonthFromTime t)
  | None => NaN
  end.

(** [n.toString()] and the template-literal conversion of a number. *)
Definition toString (n : number) : jsstring :=
  match n with
  | NaN => str "NaN"
  | Num z => str (NilEmpty.string_of_int (Z.to_int z))
  end.

(** [s.padStart(2, "0")]. *)
Definition padStart2 (s : jsstring) : jsstring :=
  repeat 48 (2 - length s) ++ s.

(** ** The month grouper (monthly variant) *)

(** An element of a destructured array; a missing element is [undefined],
    which every use below converts to NaN. *)
Definition array_element (parts : list number) (i : nat) : number :=
  nth i parts NaN.

(** [parseBrazilianDate] (lines 113-116). *)
Definition parseBrazilianDate (dateString : jsstring) : Date :=
  let parts := map Number (split_slash dateString) in
  let day := array_element parts 0 in
  let month := array_element parts 1 in
  let year := array_element parts 2 in
  new_Date (add (Num 2000) year) (sub month (Num 1)) day.

(** The [monthKey] of lines 122-125. *)
Definition monthKey (surgery : Surgery) : jsstring :=
  let date := parseBrazilianDate (Data_Realizacao surgery) in
  toString (getFullYear date) ++ str "-"
    ++ padStart2 (toString (add (getMonth date) (Num 1))).

(** The accumulator object [Record<string, Surgery[]>]: its own properties
    in insertion order.  The keys produced by [monthKey] are never names of
    [Object.prototype], so a lookup sees own properties only. *)
Definition buckets : Type := list (jsstring * list Surgery).

(** [acc[key]]: [None] is [undefined]. *)
Fixpoint get (acc : buckets) (key : jsstring) : option (list Surgery) :=
  match acc with
  | [] => None
  | (k, v) :: acc' => if eqb_str k key then Some v else get acc' key
  end.

(** [acc[key] = value]: a new property goes last. *)
Fixpoint set (acc : buckets) (key : jsstring) (value : list Surgery) : buckets :=
  match acc with
  | [] => [(key, value)]
  | (k, v) :: acc' =>
      if eqb_str k key then (k, value) :: acc' else (k, v) :: set acc' key value
  end.

(** [acc[key].push(surgery)] on a property that exists (it does where the
    reducer calls it, lemma [get_ensure]). *)
Fixpoint push_at (acc : buckets) (key : jsstring) (surgery : Surgery) : buckets :=
  match acc with
  | [] => []
  | (k, v) :: acc' =>
      if eqb_str k key then (k, v ++ [surgery]) :: acc'
      else (k, v) :: push_at acc' key surgery
  end.

(** [if (!acc[key]) acc[key] = []]: an array is truthy even when empty. *)
Definition ensure (acc : buckets) (key : jsstring) : buckets :=
  match get acc key with
  | Some _ => acc
  | None => set acc key []
  end.

(** The reducer of lines 121-131. *)
Definition group_step (acc : buckets) (surgery : Surgery) : buckets :=
  let key := monthKey surgery in
  push_at (ensure acc key) key surgery.

(** [groupSurgeriesByMonth] (lines 118-132). *)
Definition groupSurgeriesByMonth (surgeries : list Surgery) : buckets :=
  fold_left group_step surgeries [].

(** ** Well-formed dates, for the statements on month keys *)

(** The two-digit decimal rendering of [n], for [0 <= n <= 99]. *)
Definition digits2 (n : Z) : jsstring := [48 + n / 10; 48 + n mod 10].

(** The text [DD/MM/YY]. *)
Definition dd_mm_yy (d m y : Z) : jsstring :=
  digits2 d ++ [SLASH] ++ digits2 m ++ [SLASH] ++ digits2 y.

Definition days_in_month (year m : Z) : Z :=
  if m =? 2 then (if InLeapYear year then 29 else 28)
  else if (m =? 4) || (m =? 6) || (m =? 9) || (m =? 11) then 30
  else 31.

(** Day [d] of month [m] exists in the year [2000 + y], and [y] has two
    digits. *)
Definition valid_date (d m y : Z) : bool :=
  (0 <=? y) && (y <=? 99) && (1 <=? m) && (m <=? 12)
  && (1 <=? d) && (d <=? days_in_month (2000 + y) m).

(** The key [YYYY-MM] of month [m] of the year [2000 + y]. *)
Definition yyyy_mm (y m : Z) : jsstring :=
  str "20" ++ digits2 y ++ str "-" ++ digits2 m.

(** The numbers read from the first three segments of a date text. *)
Definition date_components (dateString : jsstring) : list number :=
  let parts := map Number (split_slash dateString) in
  [array_element parts 0; array_element parts 1; array_element parts 2].

(** Total number of records held in the buckets. *)
Definition total_size (acc : buckets) : nat :=
  list_sum (map (fun kb => length (snd kb)) acc).

(** The records of [surgeries] whose month key is [key], in their order. *)
Definition records_of_month (key : jsstring) (surgeries : list Surgery)
  : list Surgery :=
  filter (fun r => eqb_str (monthKey r) key) surgeries.

(** A record that carries only a date. *)
Definition dated (dateString : jsstring) : Surgery :=
  mkSurgery dateString [] [] [] [] [] [].

(** The integers [lo], [lo + 1], ..., [lo + n - 1]. *)
Definition Zseq (lo : Z) (n : nat) : list Z :=
  map (fun i => lo + Z.of_nat i) (seq 0 n).

(** ** Further notions for the sanitizer *)

(** The expression matches somewhere in [s]. *)
Fixpoint has_match (s : jsstring) : bool :=
  match s with
  | [] => false
  | c :: s' =>
      match regex_match_at (c :: s') with
      | Some _ => true
      | None => has_match s'
      end
  end.

(** ** Further notions for the extractor *)

Definition is_date_group (e : Node) : bool :=
  eqb_str (tagNameOf e) (str "G_DT_REALIZACAO").

(** The date groups of a document, in document order. *)
Definition date_groups (doc : Node) : list Node :=
  filter is_date_group (doc :: descendants doc).

(** The records of the surgery groups below the first surgery list of a
    patient group; none when there is no surgery list. *)
Definition patient_records (date : jsstring) (p : Node) : list Surgery :=
  match getElementsByTagName p (str "LIST_G_CIRURGIA") with
  | l :: _ =>
      flat_map
        (fun g =>
           if not_LOCAL (anesthesiaType_of g)
           then [surgery_record date p g (anesthesiaType_of g)] else [])
        (getElementsByTagName l (str "G_CIRURGIA"))
  | [] => []
  end.

(** The records of a date group: its patient groups in document order. *)
Definition date_group_records (e : Node) : list Surgery :=
  flat_map (patient_records (date_of e))
    (getElementsByTagName e (str "G_NM_PACIENTE")).

(** All records of a document: its date groups in document order. *)
Definition document_records (doc : Node) : list Surgery :=
  flat_map date_group_records (date_groups doc).

(** Every patient group below a date group has a surgery list. *)
Definition patients_have_lists (doc : Node) : bool :=
  forallb
    (fun e =>
       forallb
         (fun p =>
            match getElementsByTagName p (str "LIST_G_CIRURGIA") with
            | [] => false
            | _ :: _ => true
            end)
         (getElementsByTagName e (str "G_NM_PACIENTE")))
    (date_groups doc).

(** ** Further notions for the grouper *)

(** The distinct elements of a list of keys, in the order of their first
    occurrence. *)
Fixpoint first_occurrences (keys : list jsstring) : list jsstring :=
  match keys with
  | [] => []
  | k :: keys' =>
      k :: filter (fun k' => negb (eqb_str k k')) (first_occurrences keys')
  end.

(** [Object.keys(acc)]: the keys are not array indices, so they come in
    insertion order. *)
Definition Object_keys (acc : buckets) : list jsstring := map fst acc.

(** ** The form handlers

    What a handler does to the outside is kept as the list of its calls to
    the state setters and to the spreadsheet writer, in program order.
    [event.preventDefault()] and the logging to the console are left out. *)

Inductive effect : Type :=
| writeFile (filename sheetName : jsstring) (data : list Surgery)
    (* XLSX.writeFile of a workbook whose one sheet is json_to_sheet(data) *)
| setError (value : option jsstring)
| setConversionStatus (value : option jsstring)
| setPartialData (data : list Surgery).

(** The workbooks written, in order: file name and rows. *)
Fixpoint files_written (trace : list effect) : list (jsstring * list Surgery) :=
  match trace with
  | [] => []
  | writeFile name _ data :: trace' => (name, data) :: files_written trace'
  | _ :: trace' => files_written trace'
  end.

(** The value of the [error] state after the handler: the argument of the
    last call of [setError]; [None] when it was not called. *)
Fixpoint last_setError (trace : list effect) : option (option jsstring) :=
  match trace with
  | [] => None
  | setError v :: trace' =>
      match last_setError trace' with
      | Some v' => Some v'
      | None => Some v
      end
  | _ :: trace' => last_setError trace'
  end.

(** The argument of the last call of [setConversionStatus], if any. *)
Fixpoint last_setConversionStatus (trace : list effect)
  : option (option jsstring) :=
  match trace with
  | [] => None
  | setConversionStatus v :: trace' =>
      match last_setConversionStatus trace' with
      | Some v' => Some v'
      | None => Some v
      end
  | _ :: trace' => last_setConversionStatus trace'
  end.

(** [(err as Error).message]; the message text of the engine's TypeError
    is a parameter. *)
Fixpoint message (TypeError_message : jsstring) (e : exn) : jsstring :=
  match e with
  | TypeError => TypeError_message
  | XMLParsingError errorText => str "XML parsing error: " ++ errorText
  | ProcessingError cause =>
      str "Erro durante o processamento do XML: "
      ++ message TypeError_message cause
  end.

(** The template text of a number of records or files. *)
Definition count_text (n : nat) : jsstring := toString (Num (Z.of_nat n)).

(** What [file.arrayBuffer()] of the monthly variant settles to. *)
Inductive arrayBuffer_result : Type :=
| resolved (arrayBuffer : list Z)
| rejected (message : jsstring).

(** What the [FileReader] of the single-workbook variant reports. *)
Inductive reader_event : Type :=
| onload (result : list Z)
| onerror.

(** The handlers take as parameters [decode], which stands for
    [iconv.decode(Buffer.from(bytes), "ISO-8859-1")], the parser, the
    TypeError text, and the spreadsheet library [writer]: [writer filename
    data] is [None] when [json_to_sheet], [book_append_sheet] and
    [writeFile] go through and the workbook is written, and [Some message]
    when one of them throws an error with that message, in which case no
    workbook is written.  A step of a handler that may throw gives the
    effects it had and the message of the error thrown, if any. *)

(** [l.forEach(body)] for a body that may throw: the loop stops at the
    first error. *)
Definition forEach {A : Type} (body : A -> list effect * option jsstring)
  : list A -> list effect * option jsstring :=
  fix loop (l : list A) : list effect * option jsstring :=
    match l with
    | [] => ([], None)
    | x :: l' =>
        match body x with
        | (done, None) => let (rest, thrown) := loop l' in (done ++ rest, thrown)
        | (done, Some message) => (done, Some message)
        end
    end.

(** The form of the monthly variant. *)
Module MonthlyForm.

(** [convertToExcel] (lines 134-142). *)
Definition convertToExcel (writer : jsstring -> list Surgery -> option jsstring)
    (data : list Surgery) (monthKey : jsstring)
  : list effect * option jsstring :=
  let filename := str "cirurgias_" ++ monthKey ++ str ".xlsx" in
  match writer filename data with
  | None => ([writeFile filename (str "Cirurgias") data], None)
  | Some message => ([], Some message)
  end.

(** [handleSubmit] (lines 144-173); [file] is the selected file with what
    reading it gives.  Every error thrown inside the [try] ends in the
    [catch] of lines 170-172.  The text ["Nenhum dado válido ..."] has the
    code unit 225. *)
Definition handleSubmit (decode : list Z -> jsstring)
    (parseFromString : jsstring -> Node) (TypeError_message : jsstring)
    (writer : jsstring -> list Surgery -> option jsstring)
    (file : option arrayBuffer_result) : list effect :=
  match file with
  | None => []
  | Some (rejected message) =>
      [setError (Some (str "Erro ao processar o arquivo: " ++ message))]
  | Some (resolved arrayBuffer) =>
      let xmlString := decode arrayBuffer in
      match Monthly.parseXML parseFromString xmlString with
      | Normal parsedData =>
          match parsedData with
          | _ :: _ =>
              let groupedSurgeries := groupSurgeriesByMonth parsedData in
              let months := Object_keys groupedSurgeries in
              match
                forEach
                  (fun month =>
                     match get groupedSurgeries month with
                     | Some data => convertToExcel writer data month
                     | None => ([], None)
                     end) months
              with
              | (written, None) =>
                  written
                  ++ [setConversionStatus
                        (Some (str "Processados "
                               ++ count_text (length parsedData)
                               ++ str " registros. Criados "
                               ++ count_text (length months)
                               ++ str " arquivos Excel."));
                      setError None]
              | (written, Some message) =>
                  written
                  ++ [setError
                        (Some (str "Erro ao processar o arquivo: " ++ message))]
              end
          | [] =>
              [setError
                 (Some (str "Nenhum dado v" ++ [225]
                        ++ str "lido encontrado no arquivo XML."))]
          end
      | Throw err =>
          [setError
             (Some (str "Erro ao processar o arquivo: "
                    ++ message TypeError_message err))]
      end
  end.

End MonthlyForm.

(** The form of the single-workbook variant. *)
Module SingleWorkbookForm.

(** [convertToExcel] (lines 374-382). *)
Definition convertToExcel (writer : jsstring -> list Surgery -> option jsstring)
    (data : list Surgery) : list effect * option jsstring :=
  match writer (str "cirurgias.xlsx") data with
  | None => ([writeFile (str "cirurgias.xlsx") (str "Cirurgias") data], None)
  | Some message => ([], Some message)
  end.

(** [handleSubmit] (lines 384-411) with the callback the reader then runs.
    The [setError] of [parseXML] comes first; every error thrown inside the
    [try] of the callback ends in the [catch] of lines 403-405. *)
Definition handleSubmit (decode : list Z -> jsstring)
    (parseFromString : jsstring -> Node) (TypeError_message : jsstring)
    (writer : jsstring -> list Surgery -> option jsstring)
    (file : option reader_event) : list effect :=
  match file with
  | None => []
  | Some onerror => [setError (Some (str "Erro ao ler o arquivo."))]
  | Some (onload result) =>
      let encodedXml := decode result in
      match SingleWorkbook.parseXML parseFromString encodedXml with
      | (caught, Normal parsedData) =>
          match caught with
          | Some err =>
              [setError
                 (Some (str "Erro durante o processamento do XML: "
                        ++ message TypeError_message err))]
          | None => []
          end
          ++ setPartialData parsedData
          :: match parsedData with
             | _ :: _ =>
                 match convertToExcel writer parsedData with
                 | (written, None) => written ++ [setError None]
                 | (written, Some message) =>
                     written
                     ++ [setError
                           (Some (str "Erro ao processar o arquivo: "
                                  ++ message))]
                 end
             | [] =>
                 [setError
                    (Some (str "Nenhum dado valido encontrado no arquivo XML."))]
             end
      | (_, Throw err) =>
          [setError
             (Some (str "Erro ao processar o arquivo: "
                    ++ message TypeError_message err))]
      end
  end.

End SingleWorkbookForm.

(** The workbooks of [books] that get written when they are handed to the
    writer in order: those before the first one the writer fails on. *)
Fixpoint written_books (writer : jsstring -> list Surgery -> option jsstring)
    (books : list (jsstring * list Surgery)) : list (jsstring * list Surgery) :=
  match books with
  | [] => []
  | (name, data) :: books' =>
      match writer name data with
      | None => (name, data) :: written_books writer books'
      | Some _ => []
      end
  end.

(** The message of the first error of the writer on [books], if any. *)
Fixpoint first_writer_error (writer : jsstring -> list Surgery -> option jsstring)
    (books : list (jsstring * list Surgery)) : option jsstring :=
  match books with
  | [] => None
  | (name, data) :: books' =>
      match writer name data with
      | None => first_writer_error writer books'
      | Some message => Some message
      end
  end.

(** The effects of writing the workbooks [books]. *)
Definition writes (books : list (jsstring * list Surgery)) : list effect :=
  map (fun nb => writeFile (fst nb) (str "Cirurgias") (snd nb)) books.

(** The workbooks of the monthly variant for a list of records: one for each
    month key, in the order of first occurrence. *)
Definition month_books (records : list Surgery) : list (jsstring * list Surgery) :=
  map (fun key => (str "cirurgias_" ++ key ++ str ".xlsx",
                   records_of_month key records))
    (first_occurrences (map monthKey records)).

(** [refines m spec]: run on the empty array, [m] pushes a prefix of
    [spec], and all of [spec] when it completes. *)
Definition refines (m : M unit) (spec : list Surgery) : Prop :=
  (exists rest, spec = fst (m []) ++ rest) /\
  (snd (m []) = Normal tt -> fst (m []) = spec).

(** [acc[key]] read as a list: empty when the property is missing. *)
Definition bucket (acc : buckets) (key : jsstring) : list Surgery :=
  match get acc key with
  | Some v => v
  | None => []
  end.

(** *** Unfolding and basic facts of the replacement scan *)

Lemma replace_tag_dollar_cons (c : Z) (s : jsstring) :
  replace_tag_dollar (c :: s) =
  match regex_match_at (c :: s) with
  | Some (g1, rest) => LT :: g1 ++ replace_tag_dollar rest
  | None => c :: replace_tag_dollar s
  end.
Proof.
  simp replace_tag_dollar.
  generalize (inspect (regex_match_at (c :: s))).
  intros [[[g1 rest]|] e]; simpl; rewrite e; reflexivity.
Qed.

(** The scan keeps the first character of its input. *)
Lemma hd_replace_tag_dollar (s : jsstring) :
  hd_error (replace_tag_dollar s) = hd_error s.
Proof.
  destruct s as [|c s]; [reflexivity|].
  rewrite replace_tag_dollar_cons.
  destruct (regex_match_at (c :: s)) as [[g1 rest]|] eqn:E; [|reflexivity].
  unfold regex_match_at in E.
  destruct (Z.eqb_spec c LT); [subst; reflexivity | discriminate].
Qed.

Lemma is_word_not_LT (c : Z) : is_word c = true -> (c =? LT) = false.
Proof. unfold is_word, LT. lia. Qed.

Lemma regex_match_at_not_LT (c : Z) (s : jsstring) :
  (c =? LT) = false -> regex_match_at (c :: s) = None.
Proof. unfold regex_match_at. intros ->. reflexivity. Qed.

Lemma replace_tag_dollar_copy (c : Z) (s : jsstring) :
  (c =? LT) = false ->
  replace_tag_dollar (c :: s) = c :: replace_tag_dollar s.
Proof.
  intros H. rewrite replace_tag_dollar_cons, regex_match_at_not_LT; auto.
Qed.

(** A word run is copied by the scan, and the scan of the rest starts
    with the same character as the rest. *)
Lemma span_word_replace (s : jsstring) :
  span_word (replace_tag_dollar s) =
  (fst (span_word s), replace_tag_dollar (snd (span_word s))).
Proof.
  induction s as [|c s IH]; [reflexivity|].
  simpl span_word at 2 3. destruct (is_word c) eqn:W.
  - rewrite replace_tag_dollar_copy by (apply is_word_not_LT; exact W).
    simpl. rewrite W, IH. destruct (span_word s); reflexivity.
  - simpl fst; simpl snd.
    pose proof (hd_replace_tag_dollar (c :: s)) as Hhd.
    destruct (replace_tag_dollar (c :: s)) as [|d t]; [discriminate|].
    injection Hhd as ->. simpl. rewrite W. reflexivity.
Qed.

Lemma match_word_dollar_replace (s : jsstring) :
  match_word_dollar (replace_tag_dollar s) =
  option_map replace_tag_dollar (match_word_dollar s).
Proof.
  unfold match_word_dollar. rewrite span_word_replace.
  destruct (span_word s) as [[|a w] r]; simpl; [reflexivity|].
  destruct r as [|c rest]; [reflexivity|].
  destruct (c =? DOLLAR) eqn:D.
  - rewrite replace_tag_dollar_copy, D; [reflexivity|].
    unfold DOLLAR, LT in *. lia.
  - pose proof (hd_replace_tag_dollar (c :: rest)) as Hhd.
    destruct (replace_tag_dollar (c :: rest)) as [|d t]; [reflexivity|].
    injection Hhd as ->. rewrite D. reflexivity.
Qed.

Lemma match_word_dollar_not_word (c : Z) (s : jsstring) :
  is_word c = false -> match_word_dollar (c :: s) = None.
Proof. unfold match_word_dollar. simpl. intros ->. reflexivity. Qed.

(** A match attempt on scanned text succeeds exactly when it succeeds on
    the text before the scan. *)
Lemma regex_match_at_replace (c : Z) (s : jsstring) :
  regex_match_at (c :: replace_tag_dollar s) =
  option_map (fun gr => (fst gr, replace_tag_dollar (snd gr)))
    (regex_match_at (c :: s)).
Proof.
  unfold regex_match_at.
  destruct (c =? LT); [|reflexivity].
  destruct s as [|c1 s2]; [reflexivity|].
  destruct (c1 =? SLASH) eqn:S1.
  - assert (is_word c1 = false) as W by (unfold is_word, SLASH in *; lia).
    rewrite replace_tag_dollar_copy by (unfold SLASH, LT in *; lia).
    rewrite S1, match_word_dollar_replace.
    rewrite !match_word_dollar_not_word by exact W.
    destruct (match_word_dollar s2); reflexivity.
  - pose proof (hd_replace_tag_dollar (c1 :: s2)) as Hhd.
    pose proof (match_word_dollar_replace (c1 :: s2)) as Hm.
    destruct (replace_tag_dollar (c1 :: s2)) as [|d t]; [discriminate|].
    injection Hhd as ->. rewrite S1, Hm.
    destruct (match_word_dollar (c1 :: s2)); reflexivity.
Qed.

Lemma span_word_app (s : jsstring) :
  fst (span_word s) ++ snd (span_word s) = s.
Proof.
  induction s as [|c s IH]; [reflexivity|].
  simpl. destruct (is_word c); [|reflexivity].
  destruct (span_word s) as [w r]. simpl in *. rewrite IH. reflexivity.
Qed.

Lemma match_word_dollar_suffix (s rest : jsstring) :
  match_word_dollar s = Some rest -> exists pre, s = pre ++ rest.
Proof.
  unfold match_word_dollar. intros H.
  pose proof (span_word_app s) as A.
  destruct (span_word s) as [[|a w] [|c r]]; try discriminate.
  destruct (c =? DOLLAR); [|discriminate].
  injection H as <-. exists ((a :: w) ++ [c]).
  rewrite <- app_assoc. simpl in *. auto.
Qed.

Lemma regex_match_at_suffix (s g1 rest : jsstring) :
  regex_match_at s = Some (g1, rest) ->
  (g1 = [] \/ g1 = [SLASH]) /\ exists pre, s = pre ++ rest.
Proof.
  unfold regex_match_at.
  destruct s as [|c s1]; [discriminate|].
  destruct (c =? LT); [|discriminate].
  destruct s1 as [|c1 s2]; [discriminate|].
  destruct (c1 =? SLASH).
  - destruct (match_word_dollar s2) as [r|] eqn:E2.
    + intros H; injection H as <- <-. split; [auto|].
      destruct (match_word_dollar_suffix _ _ E2) as [pre ->].
      exists (c :: c1 :: pre). reflexivity.
    + destruct (match_word_dollar (c1 :: s2)) as [r|] eqn:E1; [|discriminate].
      intros H; injection H as <- <-. split; [auto|].
      destruct (match_word_dollar_suffix _ _ E1) as [pre ->].
      exists (c :: pre). reflexivity.
  - destruct (match_word_dollar (c1 :: s2)) as [r|] eqn:E1; [|discriminate].
    intros H; injection H as <- <-. split; [auto|].
    destruct (match_word_dollar_suffix _ _ E1) as [pre ->].
    exists (c :: pre). reflexivity.
Qed.

Lemma dollar_tags_delimited_suffix (pre s : jsstring) :
  dollar_tags_delimited (pre ++ s) = true -> dollar_tags_delimited s = true.
Proof.
  induction pre as [|c pre IH]; [auto|].
  simpl. intros H. apply andb_true_iff in H. apply IH, H.
Qed.

Lemma ends_tag_name_no_match (rest : jsstring) :
  ends_tag_name rest = true -> regex_match_at (LT :: rest) = None.
Proof.
  unfold regex_match_at. simpl. destruct rest as [|c s]; [reflexivity|].
  simpl. intros H. apply andb_true_iff in H. destruct H as [W S].
  apply negb_true_iff in W, S. rewrite S.
  rewrite match_word_dollar_not_word by exact W. reflexivity.
Qed.

Lemma ends_tag_name_no_match_slash (rest : jsstring) :
  ends_tag_name rest = true -> regex_match_at (LT :: SLASH :: rest) = None.
Proof.
  intros H.
  change (regex_match_at (LT :: SLASH :: rest)) with
    (match match_word_dollar rest with
     | Some r => Some ([SLASH], r)
     | None =>
         match match_word_dollar (SLASH :: rest) with
         | Some r => Some ([], r)
         | None => None
         end
     end).
  rewrite (match_word_dollar_not_word SLASH) by reflexivity.
  destruct rest as [|c s]; [reflexivity|].
  simpl in H. apply andb_true_iff in H. destruct H as [W _].
  apply negb_true_iff in W.
  rewrite match_word_dollar_not_word by exact W. reflexivity.
Qed.

(** The substitution step is idempotent on a text whose matches are all
    delimited. *)
Lemma replace_tag_dollar_idempotent (s : jsstring) :
  dollar_tags_delimited s = true ->
  replace_tag_dollar (replace_tag_dollar s) = replace_tag_dollar s.
Proof.
  remember (length s) as n eqn:Hn.
  revert s Hn. induction n as [n IH] using lt_wf_ind. intros s Hn D.
  destruct s as [|c s]; [reflexivity|].
  rewrite replace_tag_dollar_cons.
  simpl in D. apply andb_true_iff in D. destruct D as [Dhere Dtail].
  destruct (regex_match_at (c :: s)) as [[g1 rest]|] eqn:E.
  - pose proof (regex_match_at_length _ _ _ E) as L.
    destruct (regex_match_at_suffix _ _ _ E) as [Hg [pre Hpre]].
    assert (dollar_tags_delimited rest = true) as Drest.
    { destruct pre as [|p pre]; simpl in Hpre.
      - subst rest. simpl in L. lia.
      - injection Hpre as _ ->. eapply dollar_tags_delimited_suffix, Dtail. }
    assert (replace_tag_dollar (replace_tag_dollar rest) = replace_tag_dollar rest)
      as IHrest by (eapply IH; [| reflexivity | exact Drest]; subst n; exact L).
    destruct Hg as [-> | ->]; simpl.
    + rewrite replace_tag_dollar_cons, regex_match_at_replace.
      rewrite ends_tag_name_no_match by exact Dhere. simpl.
      rewrite IHrest. reflexivity.
    + rewrite <- (replace_tag_dollar_copy SLASH rest) by reflexivity.
      rewrite replace_tag_dollar_cons, regex_match_at_replace.
      rewrite ends_tag_name_no_match_slash by exact Dhere. simpl.
      rewrite !(replace_tag_dollar_copy SLASH) by reflexivity.
      rewrite IHrest. reflexivity.
  - rewrite replace_tag_dollar_cons, regex_match_at_replace, E. simpl.
    f_equal. eapply IH; [| reflexivity | exact Dtail]. subst n. simpl. lia.
Qed.

(** Whatever the tag name, the whole name goes with the [$]: the
    replacement keeps only [<] and the optional slash. *)
Lemma span_word_run (w rest : jsstring) :
  forallb is_word w = true ->
  span_word (w ++ DOLLAR :: rest) = (w, DOLLAR :: rest).
Proof.
  induction w as [|c w IH]; simpl; [reflexivity|].
  intros H. apply andb_true_iff in H. destruct H as [Hc Hw].
  rewrite Hc, IH by exact Hw. reflexivity.
Qed.

Lemma replace_tag_dollar_removes_name (c : Z) (w rest : jsstring) :
  forallb is_word (c :: w) = true ->
  replace_tag_dollar (LT :: (c :: w) ++ DOLLAR :: rest)
    = LT :: replace_tag_dollar rest /\
  replace_tag_dollar (LT :: SLASH :: (c :: w) ++ DOLLAR :: rest)
    = LT :: SLASH :: replace_tag_dollar rest.
Proof.
  intros H.
  assert (match_word_dollar ((c :: w) ++ DOLLAR :: rest) = Some rest) as M.
  { unfold match_word_dollar. rewrite span_word_run by exact H. reflexivity. }
  assert ((c =? SLASH) = false) as S.
  { simpl in H. apply andb_true_iff in H. destruct H as [Hc _].
    unfold is_word, SLASH in *. lia. }
  split; rewrite replace_tag_dollar_cons; unfold regex_match_at.
  - change ((c :: w) ++ DOLLAR :: rest) with (c :: w ++ DOLLAR :: rest) in *.
    rewrite Z.eqb_refl, S, M. reflexivity.
  - rewrite !Z.eqb_refl, M. reflexivity.
Qed.

(** C6 (as amended).  Sanitizing is idempotent on every text that does not
    start with two byte-order marks and in which every malformed tag name
    [<TAG$] or [</TAG$] is followed by the end of the text or by a character
    that is neither a word character nor a slash, such as the closing [>]. *)
Theorem sanitizeXML_idempotent_delimited (s : jsstring) :
  double_BOM s = false ->
  dollar_tags_delimited s = true ->
  sanitizeXML (sanitizeXML s) = sanitizeXML s.
Proof.
  intros B D.
  assert (forall t, dollar_tags_delimited t = true ->
            (match hd_error t with Some c => c =? BOM | None => false end) = false ->
            sanitizeXML (replace_tag_dollar t) = replace_tag_dollar t) as K.
  { intros t Dt Ht. unfold sanitizeXML, charCodeAt0.
    rewrite hd_replace_tag_dollar.
    destruct (hd_error t) as [c|]; [rewrite Ht|];
      apply replace_tag_dollar_idempotent; exact Dt. }
  unfold sanitizeXML at 2 3. unfold charCodeAt0, slice1.
  destruct s as [|c1 s]; [reflexivity|]. simpl hd_error. cbv iota.
  destruct (c1 =? BOM) eqn:E1.
  - simpl tl. apply K.
    + simpl in D. apply andb_true_iff in D. apply D.
    + destruct s as [|c2 s]; [reflexivity|]. simpl in B |- *.
      rewrite E1 in B. exact B.
  - apply K; [exact D | simpl; exact E1].
Qed.

Lemma sanitizeXML_idempotent_delimited_witness :
  sanitizeXML (sanitizeXML (BOM :: str "<ROOT$><A>R$ 10</A></ROOT$>")) =
  sanitizeXML (BOM :: str "<ROOT$><A>R$ 10</A></ROOT$>").
Proof.
  apply sanitizeXML_idempotent_delimited; vm_compute; reflexivity.
Defined.

(** C6 (as stated) fails: a second pass strips a second byte-order mark. *)
Lemma sanitizeXML_not_idempotent :
  sanitizeXML (sanitizeXML (BOM :: BOM :: str "<A>x</A>")) <>
  sanitizeXML (BOM :: BOM :: str "<A>x</A>").
Proof. vm_compute. discriminate. Qed.

(** The substitution step alone is not idempotent either: removing one
    tag name can bring [<] next to a following [name$]. *)
Example replace_tag_dollar_twice :
  replace_tag_dollar (str "<b$a$") = str "<a$" /\
  replace_tag_dollar (str "<a$") = str "<".
Proof. split; vm_compute; reflexivity. Qed.

Example sanitize_ex1 :
  sanitizeXML (BOM :: str "<ROOT$><A>x$</A></ROOT$>") = str "<><A>x$</A></>".
Proof. vm_compute. reflexivity. Qed.

(** C1: on the scenario of the claim, with or without the byte-order mark,
    the sanitizer removes the tag names together with the [$]; the result is
    not the text with [<ROOT>] and [</ROOT>] that the claim describes. *)
Theorem sanitizeXML_drops_tag_name :
  sanitizeXML (BOM :: str "<ROOT$>text</ROOT$>") = str "<>text</>" /\
  sanitizeXML (str "<ROOT$>text</ROOT$>") = str "<>text</>" /\
  str "<>text</>" <> str "<ROOT>text</ROOT>".
Proof. repeat split; vm_compute; try reflexivity; discriminate. Qed.

(** * The tree extractor *)

Lemma eqb_str_eq (s t : jsstring) : eqb_str s t = true <-> s = t.
Proof.
  revert t. induction s as [|c s IH]; intros [|d t]; simpl;
    try (split; [discriminate | discriminate]); [tauto|].
  rewrite andb_true_iff, Z.eqb_eq, IH. split.
  - intros [-> ->]. reflexivity.
  - intros H. injection H as -> ->. auto.
Qed.

Lemma eqb_str_refl (s : jsstring) : eqb_str s s = true.
Proof. apply eqb_str_eq. reflexivity. Qed.

Lemma eqb_str_sym (s t : jsstring) : eqb_str s t = eqb_str t s.
Proof.
  revert t. induction s as [|c s IH]; intros [|d t]; simpl; try reflexivity.
  rewrite IH, Z.eqb_sym. reflexivity.
Qed.

(** ** Computations only append

    No computation of the extractor reads or removes what is already in
    [surgeries]: its effect is to append the records it would push on an
    empty array, and its completion does not depend on the array. *)

Definition appends {A : Type} (m : M A) : Prop :=
  forall acc, m acc = (acc ++ fst (m []), snd (m [])).

Lemma appends_ret {A : Type} (a : A) : appends (ret a).
Proof. intros acc. unfold ret. simpl. rewrite app_nil_r. reflexivity. Qed.

Lemma appends_throw {A : Type} (e : exn) : appends (@throw A e).
Proof. intros acc. unfold throw. simpl. rewrite app_nil_r. reflexivity. Qed.

Lemma appends_push (r : Surgery) : appends (push r).
Proof. intros acc. reflexivity. Qed.

Lemma appends_bind {A B : Type} (m : M A) (k : A -> M B) :
  appends m -> (forall a, appends (k a)) -> appends (bind m k).
Proof.
  intros Hm Hk acc. unfold bind. rewrite (Hm acc).
  destruct (m []) as [o [a|e]]; simpl.
  - rewrite (Hk a (acc ++ o)), (Hk a o). simpl.
    rewrite app_assoc. reflexivity.
  - reflexivity.
Qed.

Lemma appends_for_each {A : Type} (body : A -> M unit) (l : list A) :
  (forall x, In x l -> appends (body x)) -> appends (for_each body l).
Proof.
  induction l as [|x l IH]; intros H; simpl.
  - apply appends_ret.
  - apply appends_bind; [apply H; left; reflexivity|].
    intros _. apply IH. intros y Hy. apply H. right. exact Hy.
Qed.

Lemma appends_process_surgery date p g : appends (process_surgery date p g).
Proof.
  unfold process_surgery.
  destruct (not_LOCAL _); [apply appends_push | apply appends_ret].
Qed.

Lemma appends_process_patient date p : appends (process_patient date p).
Proof.
  unfold process_patient. apply appends_bind.
  - unfold first_or_TypeError.
    destruct (getElementsByTagName p _); [apply appends_throw | apply appends_ret].
  - intros l. apply appends_for_each. intros g _. apply appends_process_surgery.
Qed.

Lemma appends_process_date_group e : appends (process_date_group e).
Proof.
  unfold process_date_group.
  destruct (eqb_str _ _); [|apply appends_ret].
  apply appends_for_each. intros p _. apply appends_process_patient.
Qed.

Lemma appends_processElement (n : Node) : appends (processElement n).
Proof.
  induction n as [d | t cs IH] using Node_ind.
  - apply appends_ret.
  - simpl. apply appends_bind; [apply appends_process_date_group|].
    intros _. apply appends_for_each. intros c Hc.
    rewrite Forall_forall in IH. apply IH, Hc.
Qed.

(** The loop over child nodes is the loop over [element.children]. *)
Lemma processElement_children (t : jsstring) (cs : list Node) :
  for_each processElement cs = for_each processElement (children (Element t cs)).
Proof.
  simpl. induction cs as [|c cs IH]; [reflexivity|].
  destruct c as [t' cs' | d]; simpl filter.
  - simpl for_each at 1 2. rewrite IH. reflexivity.
  - simpl for_each at 1. rewrite IH. unfold bind, ret.
    reflexivity.
Qed.

(** ** Running a computation on the empty array *)

Lemma run_bind {A B : Type} (m : M A) (k : A -> M B) :
  (forall a, appends (k a)) ->
  bind m k [] =
  match m [] with
  | (o, Normal a) => (o ++ fst (k a []), snd (k a []))
  | (o, Throw e) => (o, Throw e)
  end.
Proof.
  intros Hk. unfold bind. destruct (m []) as [o [a|e]]; [|reflexivity].
  apply Hk.
Qed.

Section ForEach.

Context {A : Type} (body : A -> M unit).
Hypothesis body_appends : forall x, appends (body x).

Lemma for_each_cons (x : A) (l : list A) :
  for_each body (x :: l) [] =
  match body x [] with
  | (o, Normal _) => (o ++ fst (for_each body l []), snd (for_each body l []))
  | (o, Throw e) => (o, Throw e)
  end.
Proof.
  simpl for_each. apply run_bind. intros _.
  apply appends_for_each. intros y _. apply body_appends.
Qed.

(** A pushed record was pushed by the body on some element. *)
Lemma for_each_sound (l : list A) (r : Surgery) :
  In r (fst (for_each body l [])) ->
  exists x, In x l /\ In r (fst (body x [])).
Proof.
  induction l as [|x l IH]; [intros []|].
  rewrite for_each_cons.
  destruct (body x []) as [o [[]|e]] eqn:E; simpl; intros H.
  - apply in_app_or in H. destruct H as [H|H].
    + exists x. rewrite E. auto.
    + destruct (IH H) as [y [Hy Hr]]. exists y. auto.
  - exists x. rewrite E. auto.
Qed.

(** When the loop completes, every body completed and all it pushed is
    in the array. *)
Lemma for_each_complete (l : list A) :
  snd (for_each body l []) = Normal tt ->
  forall x, In x l ->
    snd (body x []) = Normal tt /\
    incl (fst (body x [])) (fst (for_each body l [])).
Proof.
  induction l as [|x l IH]; [intros _ y []|].
  rewrite for_each_cons.
  destruct (body x []) as [o [[]|e]] eqn:E; simpl; [|discriminate].
  intros H y [<-|Hy].
  - rewrite E. split; [reflexivity|]. apply incl_appl, incl_refl.
  - destruct (IH H y Hy) as [Hn Hi]. split; [exact Hn|].
    apply incl_appr. exact Hi.
Qed.

(** An exception of the loop is an exception of some body. *)
Lemma for_each_throw (l : list A) (e : exn) :
  snd (for_each body l []) = Throw e ->
  exists x, In x l /\ snd (body x []) = Throw e.
Proof.
  induction l as [|x l IH]; [discriminate|].
  rewrite for_each_cons.
  destruct (body x []) as [o [[]|e']] eqn:E; simpl; intros H.
  - destruct (IH H) as [y [Hy Ht]]. exists y. auto.
  - exists x. rewrite E. auto.
Qed.

Lemma for_each_unit (l : list A) :
  snd (for_each body l []) = Normal tt \/
  exists e, snd (for_each body l []) = Throw e.
Proof.
  destruct (snd (for_each body l [])) as [[]|e]; eauto.
Qed.

End ForEach.

(** ** The loops of [processElement], from the inside *)

Lemma process_surgery_run date p g :
  process_surgery date p g [] =
  (if not_LOCAL (anesthesiaType_of g)
   then [surgery_record date p g (anesthesiaType_of g)] else [],
   Normal tt).
Proof.
  unfold process_surgery, anesthesiaType_of.
  destruct (not_LOCAL _); reflexivity.
Qed.

Lemma process_patient_run date p :
  process_patient date p [] =
  match getElementsByTagName p (str "LIST_G_CIRURGIA") with
  | l :: _ =>
      for_each (process_surgery date p)
        (getElementsByTagName l (str "G_CIRURGIA")) []
  | [] => ([], Throw TypeError)
  end.
Proof.
  unfold process_patient, bind, first_or_TypeError.
  destruct (getElementsByTagName p _); reflexivity.
Qed.

Lemma surgeries_complete date p (gs : list Node) :
  snd (for_each (process_surgery date p) gs []) = Normal tt.
Proof.
  destruct (for_each_unit (process_surgery date p) gs) as [H|[e H]]; [exact H|].
  apply for_each_throw in H; [|apply appends_process_surgery].
  destruct H as [g [_ H]]. rewrite process_surgery_run in H. discriminate.
Qed.

(** The only exception of the traversal is the TypeError of a patient
    group without a surgery list. *)
Lemma process_patient_throw date p e :
  snd (process_patient date p []) = Throw e ->
  e = TypeError /\ getElementsByTagName p (str "LIST_G_CIRURGIA") = [].
Proof.
  rewrite process_patient_run.
  destruct (getElementsByTagName p _) as [|l ls].
  - simpl. intros H. injection H as <-. auto.
  - rewrite surgeries_complete. discriminate.
Qed.

Lemma process_date_group_run e :
  process_date_group e [] =
  if eqb_str (tagNameOf e) (str "G_DT_REALIZACAO") then
    for_each (process_patient (date_of e))
      (getElementsByTagName e (str "G_NM_PACIENTE")) []
  else ([], Normal tt).
Proof.
  unfold process_date_group, date_of. destruct (eqb_str _ _); reflexivity.
Qed.

(** ** Descendants *)

Lemma In_descendants_child (t : jsstring) (cs : list Node) (c e : Node) :
  In c cs -> In e (c :: descendants c) -> isElement e = true ->
  In e (descendants (Element t cs)).
Proof.
  intros Hc He El. simpl. apply in_flat_map. exists c. split; [exact Hc|].
  destruct He as [<-|He].
  - rewrite El. left. reflexivity.
  - destruct c as [t' cs'|d]; [right; exact He | destruct He].
Qed.

Lemma descendants_inv (t : jsstring) (cs : list Node) (e : Node) :
  In e (descendants (Element t cs)) ->
  exists c, In c cs /\ In e (c :: descendants c).
Proof.
  simpl. intros H. apply in_flat_map in H. destruct H as [c [Hc He]].
  exists c. split; [exact Hc|].
  destruct (isElement c); [exact He | destruct He].
Qed.

Lemma descendants_isElement (n e : Node) :
  In e (descendants n) -> isElement e = true.
Proof.
  revert e. induction n as [d | t cs IH] using Node_ind; intros e H; [destruct H|].
  rewrite Forall_forall in IH.
  simpl in H. apply in_flat_map in H. destruct H as [c [Hc He]].
  destruct (isElement c) eqn:El; [|destruct He].
  destruct He as [<-|He]; [exact El | apply (IH c Hc e He)].
Qed.

(** ** The traversal *)

Lemma processElement_run (t : jsstring) (cs : list Node) :
  processElement (Element t cs) [] =
  match process_date_group (Element t cs) [] with
  | (o, Normal _) =>
      (o ++ fst (for_each processElement cs []), snd (for_each processElement cs []))
  | (o, Throw e) => (o, Throw e)
  end.
Proof.
  simpl processElement. apply run_bind. intros _.
  apply appends_for_each. intros c _. apply appends_processElement.
Qed.

Lemma process_date_group_other (e : Node) :
  tagNameOf e <> str "G_DT_REALIZACAO" ->
  process_date_group e [] = ([], Normal tt).
Proof.
  intros H. rewrite process_date_group_run.
  destruct (eqb_str _ _) eqn:E; [|reflexivity].
  apply eqb_str_eq in E. contradiction.
Qed.

Lemma date_group_isElement (e : Node) :
  tagNameOf e = str "G_DT_REALIZACAO" -> isElement e = true.
Proof. destruct e; [reflexivity | discriminate]. Qed.

(** Every record pushed by the traversal was pushed for a date group of
    the tree. *)
Lemma processElement_sound (n : Node) (r : Surgery) :
  In r (fst (processElement n [])) ->
  exists e, In e (n :: descendants n) /\
            tagNameOf e = str "G_DT_REALIZACAO" /\
            In r (fst (process_date_group e [])).
Proof.
  induction n as [d | t cs IH] using Node_ind; [intros []|].
  rewrite Forall_forall in IH. rewrite processElement_run.
  assert (forall o c, process_date_group (Element t cs) [] = (o, c) -> In r o ->
            exists e, In e (Element t cs :: descendants (Element t cs)) /\
                      tagNameOf e = str "G_DT_REALIZACAO" /\
                      In r (fst (process_date_group e []))) as Here.
  { intros o c E Hr. exists (Element t cs). split; [left; reflexivity|].
    split; [|rewrite E; exact Hr].
    destruct (list_eq_dec Z.eq_dec (tagNameOf (Element t cs)) (str "G_DT_REALIZACAO"))
      as [Y|N]; [exact Y|].
    rewrite process_date_group_other in E by exact N.
    injection E as <- _. destruct Hr. }
  destruct (process_date_group (Element t cs) []) as [o [[]|x]] eqn:E; simpl; intros H.
  - apply in_app_or in H. destruct H as [H|H]; [exact (Here o _ eq_refl H)|].
    apply for_each_sound in H; [|apply appends_processElement].
    destruct H as [c [Hc Hr]].
    destruct (IH c Hc Hr) as [e [He [Ht Hp]]].
    exists e. split; [|auto]. right.
    exact (In_descendants_child t cs c e Hc He (date_group_isElement e Ht)).
  - exact (Here o _ eq_refl H).
Qed.

(** When the traversal completes, the step for every date group of the
    tree completed and its records are in the array. *)
Lemma processElement_complete (n : Node) :
  snd (processElement n []) = Normal tt ->
  forall e, In e (n :: descendants n) ->
    snd (process_date_group e []) = Normal tt /\
    incl (fst (process_date_group e [])) (fst (processElement n [])).
Proof.
  induction n as [d | t cs IH] using Node_ind.
  - intros _ e [<-|[]]. split; [reflexivity | apply incl_refl].
  - rewrite Forall_forall in IH. rewrite processElement_run.
    destruct (process_date_group (Element t cs) []) as [o [[]|x]] eqn:E; simpl;
      [|discriminate].
    intros H e [<-|He].
    + rewrite E. split; [reflexivity | apply incl_appl, incl_refl].
    + apply (descendants_inv t) in He. destruct He as [c [Hc He]].
      destruct (for_each_complete processElement appends_processElement cs H c Hc)
        as [Hn Hi].
      destruct (IH c Hc Hn e He) as [Hn' Hi']. split; [exact Hn'|].
      apply incl_appr. eapply incl_tran; eauto.
Qed.

(** An exception of the traversal is the TypeError raised for a patient
    group, below a date group of the tree, that has no surgery list. *)
Lemma processElement_throw (n : Node) (x : exn) :
  snd (processElement n []) = Throw x ->
  x = TypeError /\
  exists e p, In e (n :: descendants n) /\
              tagNameOf e = str "G_DT_REALIZACAO" /\
              In p (getElementsByTagName e (str "G_NM_PACIENTE")) /\
              getElementsByTagName p (str "LIST_G_CIRURGIA") = [].
Proof.
  induction n as [d | t cs IH] using Node_ind; [discriminate|].
  rewrite Forall_forall in IH. rewrite processElement_run.
  destruct (process_date_group (Element t cs) []) as [o [[]|y]] eqn:E; simpl; intros H.
  - apply for_each_throw in H; [|apply appends_processElement].
    destruct H as [c [Hc Hx]].
    destruct (IH c Hc Hx) as [-> [e [p [He [Ht [Hp Hl]]]]]].
    split; [reflexivity|]. exists e, p. split; [|auto]. right.
    exact (In_descendants_child t cs c e Hc He (date_group_isElement e Ht)).
  - injection H as ->.
    rewrite process_date_group_run in E.
    destruct (eqb_str _ _) eqn:T; [|discriminate].
    apply eqb_str_eq in T.
    assert (snd (for_each (process_patient (date_of (Element t cs)))
                   (getElementsByTagName (Element t cs) (str "G_NM_PACIENTE")) [])
            = Throw x) as Hx by (rewrite E; reflexivity).
    apply for_each_throw in Hx; [|apply appends_process_patient].
    destruct Hx as [p [Hp Hx]]. apply process_patient_throw in Hx.
    destruct Hx as [-> Hl]. split; [reflexivity|].
    exists (Element t cs), p. split; [left; reflexivity|]. auto.
Qed.

(** ** Records of one date group *)

Lemma process_date_group_sound (e : Node) (r : Surgery) :
  tagNameOf e = str "G_DT_REALIZACAO" ->
  In r (fst (process_date_group e [])) ->
  exists p l g,
    In p (getElementsByTagName e (str "G_NM_PACIENTE")) /\
    hd_error (getElementsByTagName p (str "LIST_G_CIRURGIA")) = Some l /\
    In g (getElementsByTagName l (str "G_CIRURGIA")) /\
    not_LOCAL (anesthesiaType_of g) = true /\
    r = surgery_record (date_of e) p g (anesthesiaType_of g).
Proof.
  intros T. rewrite process_date_group_run, T, eqb_str_refl. intros H.
  apply for_each_sound in H; [|apply appends_process_patient].
  destruct H as [p [Hp H]]. rewrite process_patient_run in H.
  destruct (getElementsByTagName p (str "LIST_G_CIRURGIA")) as [|l ls] eqn:L;
    [destruct H|].
  apply for_each_sound in H; [|apply appends_process_surgery].
  destruct H as [g [Hg H]]. rewrite process_surgery_run in H.
  destruct (not_LOCAL (anesthesiaType_of g)) eqn:NL; [|destruct H].
  destruct H as [<-|[]].
  exists p, l, g. rewrite L. auto.
Qed.

Lemma process_date_group_complete (e p l g : Node) :
  tagNameOf e = str "G_DT_REALIZACAO" ->
  snd (process_date_group e []) = Normal tt ->
  In p (getElementsByTagName e (str "G_NM_PACIENTE")) ->
  hd_error (getElementsByTagName p (str "LIST_G_CIRURGIA")) = Some l ->
  In g (getElementsByTagName l (str "G_CIRURGIA")) ->
  not_LOCAL (anesthesiaType_of g) = true ->
  In (surgery_record (date_of e) p g (anesthesiaType_of g))
     (fst (process_date_group e [])).
Proof.
  intros T. rewrite process_date_group_run, T, eqb_str_refl.
  intros N Hp Hl Hg NL.
  destruct (for_each_complete _ (appends_process_patient (date_of e)) _ N p Hp)
    as [_ Hi].
  apply Hi. rewrite process_patient_run.
  destruct (getElementsByTagName p (str "LIST_G_CIRURGIA")) as [|l' ls];
    [discriminate|]. injection Hl as ->.
  destruct (for_each_complete _ (appends_process_surgery (date_of e) p) _
              (surgeries_complete (date_of e) p _) g Hg) as [_ Hi'].
  apply Hi'. rewrite process_surgery_run, NL. left. reflexivity.
Qed.

(** ** Soundness and completeness of the extraction *)

Lemma extraction_sound (doc : Node) (r : Surgery) :
  In r (fst (processElement doc [])) -> record_from doc r.
Proof.
  intros H. apply processElement_sound in H. destruct H as [e [He [T H]]].
  apply process_date_group_sound in H; [|exact T].
  destruct H as [p [l [g [Hp [Hl [Hg [NL ->]]]]]]].
  exists e, p, l, g. unfold surgery_group_in. auto 10.
Qed.

Lemma extraction_complete (doc : Node) (r : Surgery) :
  snd (processElement doc []) = Normal tt ->
  record_from doc r -> In r (fst (processElement doc [])).
Proof.
  intros N [e [p [l [g [[He [T [Hp [Hl Hg]]]] [NL ->]]]]]].
  destruct (processElement_complete doc N e He) as [Ne Hi].
  apply Hi. eapply process_date_group_complete; eauto.
Qed.

(** What [parseXML] returns is what the traversal pushed. *)
Lemma Monthly_parseXML_Normal parseFromString xmlString out :
  Monthly.parseXML parseFromString xmlString = Normal out ->
  processElement (parseFromString (sanitizeXML xmlString)) [] = (out, Normal tt).
Proof.
  unfold Monthly.parseXML.
  destruct (document_getElementsByTagName _ _); [|discriminate].
  destruct (processElement _ []) as [o [[]|x]]; [|discriminate].
  intros H. injection H as ->. reflexivity.
Qed.

Lemma SingleWorkbook_parseXML_Normal parseFromString xmlString err out :
  SingleWorkbook.parseXML parseFromString xmlString = (err, Normal out) ->
  out = fst (processElement (parseFromString (sanitizeXML xmlString)) []) /\
  (err = None ->
   snd (processElement (parseFromString (sanitizeXML xmlString)) []) = Normal tt).
Proof.
  unfold SingleWorkbook.parseXML.
  destruct (document_getElementsByTagName _ _); [|discriminate].
  destruct (processElement _ []) as [o [[]|x]]; intros H; injection H as <- <-;
    split; auto; discriminate.
Qed.

Lemma parseXML_output parseFromString xmlString out :
  Monthly.parseXML parseFromString xmlString = Normal out \/
  (exists err, SingleWorkbook.parseXML parseFromString xmlString = (err, Normal out)) ->
  out = fst (processElement (parseFromString (sanitizeXML xmlString)) []).
Proof.
  intros [H | [err H]].
  - apply Monthly_parseXML_Normal in H. rewrite H. reflexivity.
  - apply SingleWorkbook_parseXML_Normal in H. apply H.
Qed.

Lemma parseXML_completed parseFromString xmlString out :
  Monthly.parseXML parseFromString xmlString = Normal out \/
  SingleWorkbook.parseXML parseFromString xmlString = (None, Normal out) ->
  processElement (parseFromString (sanitizeXML xmlString)) [] = (out, Normal tt).
Proof.
  intros [H | H].
  - apply Monthly_parseXML_Normal, H.
  - apply SingleWorkbook_parseXML_Normal in H. destruct H as [-> H].
    specialize (H eq_refl). destruct (processElement _ []) as [o c].
    simpl in *. subst c. reflexivity.
Qed.


(** A surgery group whose anesthesia-type leaf reads ["LOCAL"] pushes
    nothing. *)
Lemma process_surgery_LOCAL date p g acc :
  anesthesiaType_of g = Some (str "LOCAL") ->
  process_surgery date p g acc = (acc, Normal tt).
Proof.
  intros H. rewrite appends_process_surgery, process_surgery_run, H.
  simpl. rewrite app_nil_r. reflexivity.
Qed.


Example sample_doc_records :
  processElement sample_doc [] =
  ([sample_record_GERAL; sample_record_no_leaf], Normal tt).
Proof. vm_compute. reflexivity. Qed.


(** C5.  Every record returned by the extraction, in either variant, comes
    from a surgery group of the document, and each of its seven fields is
    the text of the first leaf of that name, or the empty string when the
    leaf is absent. *)
Theorem extracted_records_normalized parseFromString xmlString out r :
  Monthly.parseXML parseFromString xmlString = Normal out \/
  (exists err, SingleWorkbook.parseXML parseFromString xmlString = (err, Normal out)) ->
  In r out ->
  exists e p l g,
    surgery_group_in (parseFromString (sanitizeXML xmlString)) e p l g /\
    leaf_field e (str "DT_REALIZACAO") (Data_Realizacao r) /\
    leaf_field p (str "CD_AVISO_CIRURGIA") (Aviso_Cirurgia r) /\
    leaf_field g (str "DECODE_NVL_CIR_AVI_DS_NPADRONI") (Cirurgia r) /\
    leaf_field p (str "CD_PACIENTE") (Codigo_Paciente r) /\
    leaf_field p (str "NM_PACIENTE") (Nome_Paciente r) /\
    leaf_field g (str "CF_NM_ANESTESISTA") (Anestesista r) /\
    leaf_field g (str "DS_TIP_ANEST") (Tipo_Anestesia r).
Proof.
  intros Hout Hr. apply parseXML_output in Hout. subst out.
  apply extraction_sound in Hr.
  destruct Hr as [e [p [l [g [Hin [_ ->]]]]]].
  exists e, p, l, g. split; [exact Hin|].
  unfold leaf_field, date_of, anesthesiaType_of. simpl.
  repeat split;
    match goal with
    | |- match ?c with _ => _ end => destruct c; reflexivity
    end.
Qed.

Lemma extracted_records_normalized_witness :
  exists e p l g,
    surgery_group_in sample_doc e p l g /\
    leaf_field e (str "DT_REALIZACAO") (Data_Realizacao sample_record_no_leaf) /\
    leaf_field p (str "CD_AVISO_CIRURGIA") (Aviso_Cirurgia sample_record_no_leaf) /\
    leaf_field g (str "DECODE_NVL_CIR_AVI_DS_NPADRONI")
      (Cirurgia sample_record_no_leaf) /\
    leaf_field p (str "CD_PACIENTE") (Codigo_Paciente sample_record_no_leaf) /\
    leaf_field p (str "NM_PACIENTE") (Nome_Paciente sample_record_no_leaf) /\
    leaf_field g (str "CF_NM_ANESTESISTA") (Anestesista sample_record_no_leaf) /\
    leaf_field g (str "DS_TIP_ANEST") (Tipo_Anestesia sample_record_no_leaf).
Proof.
  apply (extracted_records_normalized (fun _ => sample_doc) (str "<x/>")
           [sample_record_GERAL; sample_record_no_leaf]).
  - left. vm_compute. reflexivity.
  - right. left. reflexivity.
Defined.

(** C9.  A surgery group without an anesthesia-type leaf is not skipped:
    its loop step pushes a record whose anesthesia type is the empty string,
    and when the extraction completes that record is in the returned
    sequence. *)
Theorem absent_anesthesia_leaf_emitted parseFromString xmlString out e p l g :
  Monthly.parseXML parseFromString xmlString = Normal out \/
  SingleWorkbook.parseXML parseFromString xmlString = (None, Normal out) ->
  surgery_group_in (parseFromString (sanitizeXML xmlString)) e p l g ->
  getElementsByTagName g (str "DS_TIP_ANEST") = [] ->
  exists r,
    r = surgery_record (date_of e) p g None /\
    Tipo_Anestesia r = [] /\
    (forall acc, process_surgery (date_of e) p g acc = (acc ++ [r], Normal tt)) /\
    In r out.
Proof.
  intros Hout Hin Hleaf.
  assert (anesthesiaType_of g = None) as A
    by (unfold anesthesiaType_of; rewrite Hleaf; reflexivity).
  exists (surgery_record (date_of e) p g None).
  split; [reflexivity|]. split; [reflexivity|]. split.
  - intros acc. rewrite appends_process_surgery, process_surgery_run, A.
    reflexivity.
  - apply parseXML_completed in Hout.
    replace out with (fst (processElement (parseFromString (sanitizeXML xmlString)) []))
      by (rewrite Hout; reflexivity).
    apply extraction_complete; [rewrite Hout; reflexivity|].
    exists e, p, l, g. rewrite A. auto.
Qed.

Lemma absent_anesthesia_leaf_emitted_witness :
  surgery_group_in sample_doc sample_date_group sample_patient sample_list
    sample_surgery_no_leaf /\
  exists r,
    r = surgery_record (date_of sample_date_group) sample_patient
          sample_surgery_no_leaf None /\
    Tipo_Anestesia r = [] /\
    (forall acc,
       process_surgery (date_of sample_date_group) sample_patient
         sample_surgery_no_leaf acc = (acc ++ [r], Normal tt)) /\
    In r [sample_record_GERAL; sample_record_no_leaf].
Proof.
  assert (surgery_group_in sample_doc sample_date_group sample_patient sample_list
            sample_surgery_no_leaf) as Hin.
  { repeat split.
    - right. left. reflexivity.
    - left. reflexivity.
    - right. right. left. reflexivity. }
  split; [exact Hin|].
  apply (absent_anesthesia_leaf_emitted (fun _ => sample_doc) (str "<x/>")
           [sample_record_GERAL; sample_record_no_leaf]
           sample_date_group sample_patient sample_list sample_surgery_no_leaf).
  - left. vm_compute. reflexivity.
  - exact Hin.
  - reflexivity.
Defined.

(** ** A patient group without a surgery list *)

Lemma missing_list_TypeError (doc e p : Node) :
  In e (doc :: descendants doc) ->
  tagNameOf e = str "G_DT_REALIZACAO" ->
  In p (getElementsByTagName e (str "G_NM_PACIENTE")) ->
  getElementsByTagName p (str "LIST_G_CIRURGIA") = [] ->
  snd (processElement doc []) = Throw TypeError.
Proof.
  intros He T Hp Hl.
  destruct (snd (processElement doc [])) as [[]|x] eqn:S.
  - exfalso.
    destruct (processElement_complete doc S e He) as [N _].
    rewrite process_date_group_run, T, eqb_str_refl in N.
    destruct (for_each_complete _ (appends_process_patient (date_of e)) _ N p Hp)
      as [Np _].
    rewrite process_patient_run, Hl in Np. discriminate.
  - apply processElement_throw in S. destruct S as [-> _]. reflexivity.
Qed.

(** C3 (as amended).  When a patient group below a date-realization group
    of the document has no surgery list, the monthly [parseXML] fails: it
    throws the TypeError wrapped as a processing error, or the parse error
    when the parser reported one.  The single-workbook [parseXML] then does
    not fail: it hands the TypeError to [setError] and returns the records
    collected before it. *)
Theorem missing_surgery_list parseFromString xmlString e p :
  In e (parseFromString (sanitizeXML xmlString)
          :: descendants (parseFromString (sanitizeXML xmlString))) ->
  tagNameOf e = str "G_DT_REALIZACAO" ->
  In p (getElementsByTagName e (str "G_NM_PACIENTE")) ->
  getElementsByTagName p (str "LIST_G_CIRURGIA") = [] ->
  (exists err,
     Monthly.parseXML parseFromString xmlString = Throw err /\
     (err = ProcessingError TypeError \/ exists t, err = XMLParsingError t)) /\
  (document_getElementsByTagName (parseFromString (sanitizeXML xmlString))
     (str "parsererror") = [] ->
   Monthly.parseXML parseFromString xmlString = Throw (ProcessingError TypeError) /\
   SingleWorkbook.parseXML parseFromString xmlString =
     (Some TypeError,
      Normal (fst (processElement (parseFromString (sanitizeXML xmlString)) [])))).
Proof.
  intros He T Hp Hl.
  pose proof (missing_list_TypeError _ e p He T Hp Hl) as S.
  unfold Monthly.parseXML, SingleWorkbook.parseXML.
  destruct (processElement (parseFromString (sanitizeXML xmlString)) [])
    as [o c] eqn:E.
  simpl in S. subst c.
  destruct (document_getElementsByTagName _ _) as [|pe pes].
  - split; [eauto | auto].
  - split; [eauto | discriminate].
Qed.

Lemma missing_surgery_list_witness :
  Monthly.parseXML (fun _ => doc_missing_list) (str "<x/>") =
    Throw (ProcessingError TypeError) /\
  SingleWorkbook.parseXML (fun _ => doc_missing_list) (str "<x/>") =
    (Some TypeError, Normal (fst (processElement doc_missing_list []))).
Proof.
  refine (proj2 (missing_surgery_list (fun _ => doc_missing_list) (str "<x/>")
                   date_group_missing_list patient_without_list _ _ _ _) _).
  - right. left. reflexivity.
  - reflexivity.
  - right. left. reflexivity.
  - reflexivity.
  - reflexivity.
Defined.

(** C3 (as stated) fails in both variants.  In the single-workbook variant
    a patient group without a surgery list leaves a partial record list,
    returned normally; in the monthly variant a patient group that lies
    outside every date-realization group is never looked at, and the
    extraction returns the empty list. *)
Lemma missing_surgery_list_not_fatal :
  (In patient_without_list (descendants doc_missing_list) /\
   tagNameOf patient_without_list = str "G_NM_PACIENTE" /\
   getElementsByTagName patient_without_list (str "LIST_G_CIRURGIA") = [] /\
   SingleWorkbook.parseXML (fun _ => doc_missing_list) (str "<x/>") =
     (Some TypeError, Normal [record_before_missing_list])) /\
  (In patient_without_list (descendants doc_stray_patient) /\
   Monthly.parseXML (fun _ => doc_stray_patient) (str "<x/>") = Normal []).
Proof.
  repeat split.
  - vm_compute. tauto.
  - vm_compute. tauto.
Qed.

(** C10.  With one date-realization group nested in another, the one
    surgery group of the document, below the inner group, is emitted twice:
    by the descendant scan of the outer group, with the outer date
    01/01/24, and again when the traversal reaches the inner group, with the
    inner date 02/02/24. *)
Theorem nested_date_groups_duplicate :
  getElementsByTagName doc_nested_dates (str "G_CIRURGIA") = [nested_surgery] /\
  surgery_group_in doc_nested_dates doc_nested_dates nested_patient
    (Element (str "LIST_G_CIRURGIA") [nested_surgery]) nested_surgery /\
  Monthly.parseXML (fun _ => doc_nested_dates) (str "<x/>") =
    Normal [mkSurgery (str "01/01/24") (str "101") [] [] [] [] (str "GERAL");
            mkSurgery (str "02/02/24") (str "101") [] [] [] [] (str "GERAL")] /\
  SingleWorkbook.parseXML (fun _ => doc_nested_dates) (str "<x/>") =
    (None,
     Normal [mkSurgery (str "01/01/24") (str "101") [] [] [] [] (str "GERAL");
             mkSurgery (str "02/02/24") (str "101") [] [] [] [] (str "GERAL")]).
Proof.
  split; [vm_compute; reflexivity|].
  split; [|split; vm_compute; reflexivity].
  repeat split.
  - left. reflexivity.
  - left. reflexivity.
  - left. reflexivity.
Qed.

(** * The month grouper *)

(** ** The calendar functions *)

(** [YearFromDay d] is the year that contains day [d]. *)
Lemma YearFromDay_spec (d : Z) :
  DayFromYear (YearFromDay d) <= d < DayFromYear (YearFromDay d + 1).
Proof.
  unfold YearFromDay.
  set (y := 1970 + 400 * d / 146097).
  assert (DayFromYear (y - 1) <= d < DayFromYear (y + 2)) as B.
  { unfold DayFromYear, y. clearbody y. clear y.
    Z.div_mod_to_equations. lia. }
  destruct (Z.leb_spec (DayFromYear (y + 1)) d) as [H1|H1].
  - replace (y + 1 + 1) with (y + 2) by lia. lia.
  - destruct (Z.leb_spec (DayFromYear y) d) as [H0|H0].
    + lia.
    + replace (y - 1 + 1) with y by lia. lia.
Qed.

Lemma DaysInYear_cases (y : Z) : DaysInYear y = 365 \/ DaysInYear y = 366.
Proof.
  unfold DaysInYear, DayFromYear. Z.div_mod_to_equations. lia.
Qed.

Lemma DayFromYear_mono (a b : Z) : a <= b -> DayFromYear a <= DayFromYear b.
Proof.
  unfold DayFromYear. intros H. Z.div_mod_to_equations. lia.
Qed.

Lemma YearFromDay_unique (d y : Z) :
  DayFromYear y <= d < DayFromYear (y + 1) -> YearFromDay d = y.
Proof.
  intros H. pose proof (YearFromDay_spec d) as S.
  destruct (Z.lt_trichotomy (YearFromDay d) y) as [L|[E|G]]; [|exact E|].
  - pose proof (DayFromYear_mono (YearFromDay d + 1) y ltac:(lia)). lia.
  - pose proof (DayFromYear_mono (y + 1) (YearFromDay d) ltac:(lia)). lia.
Qed.

Lemma Day_of_days (D : Z) : Day (D * msPerDay) = D.
Proof. unfold Day, msPerDay. apply Z.div_mul. lia. Qed.

Lemma DaysInYear_leap (y : Z) :
  DaysInYear y = if InLeapYear y then 366 else 365.
Proof.
  unfold InLeapYear. destruct (DaysInYear_cases y) as [H|H]; rewrite H; reflexivity.
Qed.

Ltac eval_month_start :=
  repeat match goal with
         | |- context [month_start ?b ?k] =>
             let v := eval vm_compute in (month_start b k) in
             change (month_start b k) with v
         end.

Lemma month_cases (m : Z) :
  1 <= m <= 12 ->
  In m [1; 2; 3; 4; 5; 6; 7; 8; 9; 10; 11; 12].
Proof. intros H. simpl. lia. Qed.

(** Day [d] of month [m] of year [Y], for a valid day and month, lies in
    year [Y] and month [m - 1]. *)
Lemma MakeDay_in_year (Y m d : Z) :
  1 <= m <= 12 -> 1 <= d <= days_in_month Y m ->
  MakeDay Y (m - 1) d =
    DayFromYear Y + (month_start (InLeapYear Y) (m - 1) + d - 1) /\
  0 <= month_start (InLeapYear Y) (m - 1) + d - 1 < DaysInYear Y /\
  month_start (InLeapYear Y) (m - 1) <= month_start (InLeapYear Y) (m - 1) + d - 1
    /\ (m < 12 ->
        month_start (InLeapYear Y) (m - 1) + d - 1 < month_start (InLeapYear Y) m).
Proof.
  intros Hm Hd. unfold MakeDay.
  replace ((m - 1) / 12) with 0 by (Z.div_mod_to_equations; lia).
  replace ((m - 1) mod 12) with (m - 1) by (Z.div_mod_to_equations; lia).
  rewrite Z.add_0_r, DaysInYear_leap.
  split; [lia|].
  apply month_cases in Hm. unfold days_in_month in Hd.
  destruct (InLeapYear Y);
    repeat (destruct Hm as [<-|Hm]; [simpl in Hd; eval_month_start; lia|]);
    destruct Hm.
Qed.

Lemma getFullYear_valid (Y m d : Z) :
  1 <= m <= 12 -> 1 <= d <= days_in_month Y m ->
  YearFromTime (MakeDay Y (m - 1) d * msPerDay) = Y /\
  MonthFromTime (MakeDay Y (m - 1) d * msPerDay) = m - 1.
Proof.
  intros Hm Hd.
  destruct (MakeDay_in_year Y m d Hm Hd) as [E [R [Lo Hi]]].
  assert (YearFromTime (MakeDay Y (m - 1) d * msPerDay) = Y) as HY.
  { unfold YearFromTime. rewrite Day_of_days, E.
    apply YearFromDay_unique. unfold DaysInYear in R. lia. }
  split; [exact HY|].
  unfold MonthFromTime. rewrite HY, Day_of_days, E.
  set (w := month_start (InLeapYear Y) (m - 1) + d - 1) in *.
  replace (DayFromYear Y + w - DayFromYear Y) with w by lia.
  rewrite DaysInYear_leap in R.
  apply month_cases in Hm.
  destruct (InLeapYear Y);
    repeat (destruct Hm as [<-|Hm];
            [revert Lo Hi R; eval_month_start; intros Lo Hi R;
             repeat match goal with
                    | |- context [?a <? ?b] => destruct (Z.ltb_spec a b); try lia
                    end|]);
    destruct Hm.
Qed.

(** ** The accumulator object *)

Lemma get_set (acc : buckets) (key : jsstring) (v : list Surgery) (k : jsstring) :
  get (set acc key v) k = if eqb_str key k then Some v else get acc k.
Proof.
  induction acc as [|[k0 v0] acc IH]; simpl.
  - reflexivity.
  - destruct (eqb_str k0 key) eqn:E; simpl.
    + apply eqb_str_eq in E. subst k0. destruct (eqb_str key k); reflexivity.
    + rewrite IH. destruct (eqb_str k0 k) eqn:E'; [|reflexivity].
      apply eqb_str_eq in E'. subst k0. rewrite eqb_str_sym, E. reflexivity.
Qed.

Lemma get_push_at (acc : buckets) (key : jsstring) (r : Surgery) (k : jsstring) :
  get (push_at acc key r) k =
  if eqb_str key k then option_map (fun v => v ++ [r]) (get acc key)
  else get acc k.
Proof.
  induction acc as [|[k0 v0] acc IH]; simpl.
  - destruct (eqb_str key k); reflexivity.
  - destruct (eqb_str k0 key) eqn:E; simpl.
    + apply eqb_str_eq in E. subst k0. destruct (eqb_str key k); reflexivity.
    + rewrite IH. destruct (eqb_str k0 k) eqn:E'; [|reflexivity].
      apply eqb_str_eq in E'. subst k0. rewrite eqb_str_sym, E. reflexivity.
Qed.

(** After [if (!acc[key]) acc[key] = []] the property exists, so the
    [push] that follows never reads [undefined]. *)
Lemma get_ensure (acc : buckets) (key : jsstring) :
  get (ensure acc key) key =
  Some (match get acc key with Some v => v | None => [] end).
Proof.
  unfold ensure. destruct (get acc key) eqn:E; [exact E|].
  rewrite get_set, eqb_str_refl. reflexivity.
Qed.

Lemma get_ensure_other (acc : buckets) (key k : jsstring) :
  eqb_str key k = false -> get (ensure acc key) k = get acc k.
Proof.
  intros H. unfold ensure. destruct (get acc key); [reflexivity|].
  rewrite get_set, H. reflexivity.
Qed.

Lemma get_group_step (acc : buckets) (r : Surgery) (k : jsstring) :
  get (group_step acc r) k =
  if eqb_str (monthKey r) k
  then Some (match get acc (monthKey r) with Some v => v | None => [] end ++ [r])
  else get acc k.
Proof.
  unfold group_step. rewrite get_push_at.
  destruct (eqb_str (monthKey r) k) eqn:E.
  - rewrite get_ensure. reflexivity.
  - apply get_ensure_other, E.
Qed.

Lemma get_None_keys (acc : buckets) (k : jsstring) :
  get acc k = None <-> ~ In k (map fst acc).
Proof.
  induction acc as [|[k0 v0] acc IH]; simpl; [tauto|].
  destruct (eqb_str k0 k) eqn:E.
  - apply eqb_str_eq in E. split; [discriminate | tauto].
  - rewrite IH. split; [|tauto].
    intros H [H'|H']; [|tauto]. subst k0. rewrite eqb_str_refl in E. discriminate.
Qed.

Lemma keys_push_at (acc : buckets) (key : jsstring) (r : Surgery) :
  map fst (push_at acc key r) = map fst acc.
Proof.
  induction acc as [|[k0 v0] acc IH]; simpl; [reflexivity|].
  destruct (eqb_str k0 key); simpl; [|rewrite IH]; reflexivity.
Qed.

Lemma set_absent (acc : buckets) (key : jsstring) (v : list Surgery) :
  get acc key = None -> set acc key v = acc ++ [(key, v)].
Proof.
  induction acc as [|[k0 v0] acc IH]; simpl; [reflexivity|].
  destruct (eqb_str k0 key); [discriminate|].
  intros H. rewrite IH by exact H. reflexivity.
Qed.

Lemma NoDup_keys_group_step (acc : buckets) (r : Surgery) :
  NoDup (map fst acc) -> NoDup (map fst (group_step acc r)).
Proof.
  intros H. unfold group_step, ensure. rewrite keys_push_at.
  destruct (get acc (monthKey r)) eqn:E; [exact H|].
  rewrite set_absent by exact E. rewrite map_app. simpl.
  apply NoDup_app; [exact H | repeat constructor; intros [] |].
  intros k Hk [<-|[]]. apply get_None_keys in E. contradiction.
Qed.

Lemma In_get (acc : buckets) (k : jsstring) (b : list Surgery) :
  NoDup (map fst acc) -> In (k, b) acc -> get acc k = Some b.
Proof.
  induction acc as [|[k0 v0] acc IH]; simpl; [tauto|].
  intros N [H|H].
  - injection H as -> ->. rewrite eqb_str_refl. reflexivity.
  - inversion N as [|? ? Hk N']; subst.
    destruct (eqb_str k0 k) eqn:E.
    + apply eqb_str_eq in E. subst k0. exfalso. apply Hk.
      apply (in_map fst) in H. exact H.
    + apply IH; assumption.
Qed.

Lemma total_size_app (a b : buckets) :
  total_size (a ++ b) = (total_size a + total_size b)%nat.
Proof. unfold total_size. rewrite map_app, list_sum_app. reflexivity. Qed.

Lemma total_size_push_at (acc : buckets) (key : jsstring) (r : Surgery) :
  get acc key <> None ->
  total_size (push_at acc key r) = S (total_size acc).
Proof.
  induction acc as [|[k0 v0] acc IH]; simpl; [congruence|].
  destruct (eqb_str k0 key); unfold total_size in *; simpl.
  - intros _. rewrite length_app. simpl. lia.
  - intros H. rewrite IH by exact H. lia.
Qed.

Lemma total_size_group_step (acc : buckets) (r : Surgery) :
  total_size (group_step acc r) = S (total_size acc).
Proof.
  unfold group_step. rewrite total_size_push_at by (rewrite get_ensure; discriminate).
  f_equal. unfold ensure. destruct (get acc (monthKey r)) eqn:E; [reflexivity|].
  rewrite set_absent by exact E. rewrite total_size_app.
  unfold total_size. simpl. lia.
Qed.

(** ** What grouping returns *)

Lemma groupSurgeriesByMonth_snoc (rs : list Surgery) (r : Surgery) :
  groupSurgeriesByMonth (rs ++ [r]) = group_step (groupSurgeriesByMonth rs) r.
Proof. unfold groupSurgeriesByMonth. rewrite fold_left_app. reflexivity. Qed.

Lemma records_of_month_snoc (k : jsstring) (rs : list Surgery) (r : Surgery) :
  records_of_month k (rs ++ [r]) =
  records_of_month k rs ++ (if eqb_str (monthKey r) k then [r] else []).
Proof. unfold records_of_month. rewrite filter_app. reflexivity. Qed.

(** The bucket of a key holds the records of that month in input order;
    there is a bucket exactly for the months that occur. *)
Lemma get_groupSurgeriesByMonth (rs : list Surgery) (k : jsstring) :
  get (groupSurgeriesByMonth rs) k =
  match records_of_month k rs with
  | [] => None
  | b => Some b
  end.
Proof.
  induction rs as [|r rs IH] using rev_ind; [reflexivity|].
  rewrite groupSurgeriesByMonth_snoc, get_group_step, records_of_month_snoc.
  destruct (eqb_str (monthKey r) k) eqn:E.
  - apply eqb_str_eq in E. subst k. rewrite IH.
    destruct (records_of_month (monthKey r) rs); reflexivity.
  - rewrite app_nil_r. exact IH.
Qed.

Lemma NoDup_keys_groupSurgeriesByMonth (rs : list Surgery) :
  NoDup (map fst (groupSurgeriesByMonth rs)).
Proof.
  induction rs as [|r rs IH] using rev_ind; [constructor|].
  rewrite groupSurgeriesByMonth_snoc. apply NoDup_keys_group_step, IH.
Qed.

Lemma total_size_groupSurgeriesByMonth (rs : list Surgery) :
  total_size (groupSurgeriesByMonth rs) = length rs.
Proof.
  induction rs as [|r rs IH] using rev_ind; [reflexivity|].
  rewrite groupSurgeriesByMonth_snoc, total_size_group_step, IH, length_app.
  simpl. lia.
Qed.

(** C7.  Grouping loses and duplicates nothing: the bucket sizes add up
    to the number of records, no month key has two buckets, and each bucket
    is the subsequence of input records with its month key, in input
    order. *)
Theorem grouping_partition (surgeries : list Surgery) :
  total_size (groupSurgeriesByMonth surgeries) = length surgeries /\
  NoDup (map fst (groupSurgeriesByMonth surgeries)) /\
  forall key bucket,
    In (key, bucket) (groupSurgeriesByMonth surgeries) ->
    bucket = records_of_month key surgeries.
Proof.
  split; [apply total_size_groupSurgeriesByMonth|].
  split; [apply NoDup_keys_groupSurgeriesByMonth|].
  intros k b H.
  apply In_get in H; [|apply NoDup_keys_groupSurgeriesByMonth].
  rewrite get_groupSurgeriesByMonth in H.
  destruct (records_of_month k surgeries); [discriminate|].
  injection H as <-. reflexivity.
Qed.

Lemma grouping_partition_witness :
  In (str "2024-03", [dated (str "15/03/24"); dated (str "01/03/24")])
     (groupSurgeriesByMonth
        [dated (str "15/03/24"); dated (str "02/04/24"); dated (str "01/03/24")]) /\
  [dated (str "15/03/24"); dated (str "01/03/24")] =
  records_of_month (str "2024-03")
    [dated (str "15/03/24"); dated (str "02/04/24"); dated (str "01/03/24")].
Proof.
  assert (In (str "2024-03", [dated (str "15/03/24"); dated (str "01/03/24")])
            (groupSurgeriesByMonth
               [dated (str "15/03/24"); dated (str "02/04/24");
                dated (str "01/03/24")])) as H
    by (vm_compute; left; reflexivity).
  split; [exact H|].
  exact (proj2 (proj2 (grouping_partition _)) _ _ H).
Defined.

(** ** Month keys *)

Lemma In_Zseq (lo : Z) (n : nat) (z : Z) :
  lo <= z < lo + Z.of_nat n -> In z (Zseq lo n).
Proof.
  intros H. unfold Zseq. apply in_map_iff.
  exists (Z.to_nat (z - lo)). split; [lia|]. apply in_seq. lia.
Qed.

Lemma monthKey_dated (r : Surgery) :
  monthKey r = monthKey (dated (Data_Realizacao r)).
Proof. reflexivity. Qed.

Lemma forallb_Zseq (P : Z -> bool) (lo : Z) (n : nat) :
  forallb P (Zseq lo n) = true ->
  forall z, lo <= z < lo + Z.of_nat n -> P z = true.
Proof.
  intros H z Hz. rewrite forallb_forall in H. apply H, In_Zseq, Hz.
Qed.

(** Two-digit texts, by evaluation of the hundred cases. *)
Lemma Number_digits2 (n : Z) : 0 <= n <= 99 -> Number (digits2 n) = Num n.
Proof.
  intros H.
  assert (forallb (fun n => match Number (digits2 n) with
                            | Num z => z =? n
                            | NaN => false
                            end) (Zseq 0 100) = true) as A
    by (vm_compute; reflexivity).
  pose proof (forallb_Zseq _ _ _ A n ltac:(lia)) as B. simpl in B.
  destruct (Number (digits2 n)); [discriminate|].
  apply Z.eqb_eq in B. subst. reflexivity.
Qed.

Lemma toString_year (y : Z) :
  0 <= y <= 99 -> toString (Num (2000 + y)) = str "20" ++ digits2 y.
Proof.
  intros H.
  assert (forallb (fun y => eqb_str (toString (Num (2000 + y)))
                              (str "20" ++ digits2 y)) (Zseq 0 100) = true) as A
    by (vm_compute; reflexivity).
  apply eqb_str_eq. exact (forallb_Zseq _ _ _ A y ltac:(lia)).
Qed.

Lemma padStart2_month (m : Z) :
  0 <= m <= 99 -> padStart2 (toString (Num m)) = digits2 m.
Proof.
  intros H.
  assert (forallb (fun m => eqb_str (padStart2 (toString (Num m))) (digits2 m))
            (Zseq 0 100) = true) as A
    by (vm_compute; reflexivity).
  apply eqb_str_eq. exact (forallb_Zseq _ _ _ A m ltac:(lia)).
Qed.

Lemma split_slash_nonempty (s : jsstring) : split_slash s <> [].
Proof.
  destruct s as [|c s]; simpl; [discriminate|].
  destruct (c =? SLASH); [discriminate|].
  destruct (split_slash s); discriminate.
Qed.

Lemma split_slash_copy (c : Z) (s : jsstring) :
  (c =? SLASH) = false ->
  split_slash (c :: s) = (c :: hd [] (split_slash s)) :: tl (split_slash s).
Proof.
  intros H. simpl. rewrite H.
  pose proof (split_slash_nonempty s).
  destruct (split_slash s); [contradiction | reflexivity].
Qed.

Lemma digits2_no_slash (n : Z) :
  0 <= n <= 99 ->
  (48 + n / 10 =? SLASH) = false /\ (48 + n mod 10 =? SLASH) = false.
Proof.
  intros H. unfold SLASH. split; apply Z.eqb_neq;
    Z.div_mod_to_equations; lia.
Qed.

Lemma split_slash_dd_mm_yy (d m y : Z) :
  0 <= d <= 99 -> 0 <= m <= 99 -> 0 <= y <= 99 ->
  split_slash (dd_mm_yy d m y) = [digits2 d; digits2 m; digits2 y].
Proof.
  intros Hd Hm Hy. unfold dd_mm_yy, digits2.
  destruct (digits2_no_slash d Hd) as [D1 D2].
  destruct (digits2_no_slash m Hm) as [M1 M2].
  destruct (digits2_no_slash y Hy) as [Y1 Y2].
  cbn [app].
  repeat first
    [ rewrite split_slash_copy by assumption
    | match goal with
      | |- context [split_slash (SLASH :: ?s)] =>
          change (split_slash (SLASH :: s)) with ([] :: split_slash s)
      | |- context [split_slash []] =>
          change (split_slash []) with [@nil Z]
      end ].
  reflexivity.
Qed.

Lemma valid_date_ranges (d m y : Z) :
  valid_date d m y = true ->
  0 <= y <= 99 /\ 1 <= m <= 12 /\ 1 <= d <= days_in_month (2000 + y) m /\
  d <= 31.
Proof.
  unfold valid_date. intros V.
  assert (days_in_month (2000 + y) m <= 31) as D31
    by (unfold days_in_month;
        repeat match goal with |- context [if ?b then _ else _] => destruct b end;
        lia).
  lia.
Qed.

Lemma TimeClip_century (Y m d : Z) :
  2000 <= Y <= 2099 -> 1 <= m <= 12 -> 1 <= d <= days_in_month Y m ->
  TimeClip (MakeDay Y (m - 1) d * msPerDay) = Some (MakeDay Y (m - 1) d * msPerDay).
Proof.
  intros HY Hm Hd.
  destruct (MakeDay_in_year Y m d Hm Hd) as [E [R _]].
  rewrite DaysInYear_leap in R.
  assert (0 <= DayFromYear Y <= 50000) as B
    by (unfold DayFromYear; Z.div_mod_to_equations; lia).
  assert (0 <= MakeDay Y (m - 1) d <= 51000) as B'
    by (rewrite E; destruct (InLeapYear Y); lia).
  unfold TimeClip, msPerDay.
  destruct (Z.leb_spec (Z.abs (MakeDay Y (m - 1) d * 86400000)) 8640000000000000);
    [reflexivity | lia].
Qed.

(** The month key of a valid date of the years 2000 to 2099. *)
Lemma monthKey_valid_date (d m y : Z) :
  valid_date d m y = true ->
  monthKey (dated (dd_mm_yy d m y)) = yyyy_mm y m.
Proof.
  intros V. destruct (valid_date_ranges d m y V) as [Hy [Hm [Hd D31]]].
  unfold monthKey, parseBrazilianDate, dated, Data_Realizacao.
  rewrite split_slash_dd_mm_yy by lia.
  cbn [map array_element nth].
  rewrite !Number_digits2 by lia.
  cbn [add sub]. unfold new_Date.
  replace ((0 <=? 2000 + y) && (2000 + y <=? 99)) with false by lia.
  rewrite TimeClip_century by lia.
  destruct (getFullYear_valid (2000 + y) m d Hm Hd) as [GY GM].
  cbn [getFullYear getMonth]. rewrite GY, GM. cbn [add].
  replace (m - 1 + 1) with m by lia.
  rewrite toString_year by lia. rewrite padStart2_month by lia.
  unfold yyyy_mm. rewrite <- !app_assoc. reflexivity.
Qed.

Lemma In_records_of_month (rs : list Surgery) (r : Surgery) :
  In r rs -> In r (records_of_month (monthKey r) rs).
Proof.
  intros H. unfold records_of_month. apply filter_In.
  split; [exact H | apply eqb_str_refl].
Qed.

(** Every record is in the bucket of its month key. *)
Lemma record_in_its_bucket (rs : list Surgery) (r : Surgery) :
  In r rs ->
  exists b, get (groupSurgeriesByMonth rs) (monthKey r) = Some b /\ In r b.
Proof.
  intros H. apply In_records_of_month in H.
  rewrite get_groupSurgeriesByMonth.
  destruct (records_of_month (monthKey r) rs) as [|x b]; [destruct H|].
  eexists. split; [reflexivity | exact H].
Qed.

(** C8.  A record whose date is the text [DD/MM/YY] of a valid date has the
    month key [20YY-MM], the month padded to two digits, and is held in the
    bucket of that key. *)
Theorem month_key_of_valid_date (surgeries : list Surgery) (r : Surgery)
    (d m y : Z) :
  valid_date d m y = true ->
  Data_Realizacao r = dd_mm_yy d m y ->
  In r surgeries ->
  monthKey r = yyyy_mm y m /\
  exists bucket,
    get (groupSurgeriesByMonth surgeries) (yyyy_mm y m) = Some bucket /\
    In r bucket.
Proof.
  intros V E H.
  assert (monthKey r = yyyy_mm y m) as K
    by (rewrite monthKey_dated, E; apply monthKey_valid_date, V).
  split; [exact K|]. rewrite <- K. apply record_in_its_bucket, H.
Qed.

Lemma month_key_of_valid_date_witness :
  monthKey (dated (str "15/03/24")) = str "2024-03" /\
  exists bucket,
    get (groupSurgeriesByMonth [dated (str "15/03/24")]) (str "2024-03")
      = Some bucket /\
    In (dated (str "15/03/24")) bucket.
Proof.
  apply (month_key_of_valid_date [dated (str "15/03/24")]
           (dated (str "15/03/24")) 15 3 24).
  - vm_compute. reflexivity.
  - reflexivity.
  - left. reflexivity.
Defined.

Example single_record_grouped :
  groupSurgeriesByMonth [sample_record_GERAL] =
  [(str "2024-03", [sample_record_GERAL])].
Proof. vm_compute. reflexivity. Qed.

(** ** Dates that do not parse *)

Lemma monthKey_NaN (r : Surgery) :
  In NaN (date_components (Data_Realizacao r)) -> monthKey r = str "NaN-NaN".
Proof.
  unfold monthKey, parseBrazilianDate, date_components.
  set (parts := map Number (split_slash (Data_Realizacao r))).
  intros H.
  assert (new_Date (add (Num 2000) (array_element parts 2))
            (sub (array_element parts 1) (Num 1)) (array_element parts 0) = None)
    as ->; [|reflexivity].
  destruct (array_element parts 0), (array_element parts 1),
    (array_element parts 2); simpl in *; try reflexivity.
  intuition discriminate.
Qed.

Lemma too_few_segments (dateString : jsstring) :
  (length (split_slash dateString) < 3)%nat ->
  In NaN (date_components dateString).
Proof.
  intros H. unfold date_components, array_element.
  right. right. left. apply nth_overflow. rewrite length_map. lia.
Qed.

Lemma MakeDay_month_carry (Y m d : Z) :
  MakeDay Y (m + 12) d = MakeDay (Y + 1) m d.
Proof.
  unfold MakeDay.
  replace ((m + 12) / 12) with (m / 12 + 1)
    by (Z.div_mod_to_equations; lia).
  replace ((m + 12) mod 12) with (m mod 12)
    by (Z.div_mod_to_equations; lia).
  replace (Y + (m / 12 + 1)) with (Y + 1 + m / 12) by lia. reflexivity.
Qed.

Lemma not_numeric_NaN (segment : jsstring) :
  not_numeric segment = true -> Number segment = NaN.
Proof.
  unfold not_numeric, Number, starts_numeric_literal.
  destruct (trim segment) as [|c ds]; [discriminate|].
  intros H. apply negb_true_iff in H.
  apply orb_false_iff in H. destruct H as [H _].
  apply orb_false_iff in H. destruct H as [H _].
  apply orb_false_iff in H. destruct H as [H Hminus].
  apply orb_false_iff in H. destruct H as [Hdigit Hplus].
  rewrite Hplus, Hminus. unfold unsigned_decimal. simpl.
  unfold digit_value. rewrite Hdigit. reflexivity.
Qed.

Lemma not_numeric_component (dateString : jsstring) :
  existsb not_numeric (firstn 3 (split_slash dateString)) = true ->
  In NaN (date_components dateString).
Proof.
  unfold date_components, array_element.
  destruct (split_slash dateString) as [|a [|b [|c rest]]]; simpl;
    rewrite ?orb_false_r; intros H;
    repeat (apply orb_true_iff in H; destruct H as [H|H]);
    try discriminate;
    apply not_numeric_NaN in H; rewrite H; auto.
Qed.

(** The key of a date text whose month number is 13 to 24. *)
Lemma monthKey_month_beyond_12 (d m y : Z) :
  0 <= y ->
  valid_date d m (y + 1) = true ->
  monthKey (dated (dd_mm_yy d (m + 12) y)) = yyyy_mm (y + 1) m.
Proof.
  intros Hy0 V. destruct (valid_date_ranges d m (y + 1) V) as [Hy [Hm [Hd D31]]].
  unfold monthKey, parseBrazilianDate, dated, Data_Realizacao.
  rewrite split_slash_dd_mm_yy by lia.
  cbn [map array_element nth].
  rewrite !Number_digits2 by lia.
  cbn [add sub]. unfold new_Date.
  replace ((0 <=? 2000 + y) && (2000 + y <=? 99)) with false by lia.
  replace (m + 12 - 1) with (m - 1 + 12) by lia.
  rewrite MakeDay_month_carry.
  replace (2000 + y + 1) with (2000 + (y + 1)) by lia.
  rewrite TimeClip_century by lia.
  destruct (getFullYear_valid (2000 + (y + 1)) m d Hm Hd) as [GY GM].
  cbn [getFullYear getMonth]. rewrite GY, GM. cbn [add].
  replace (m - 1 + 1) with m by lia.
  rewrite toString_year by lia. rewrite padStart2_month by lia.
  unfold yyyy_mm. rewrite <- !app_assoc. reflexivity.
Qed.

(** C2 (as amended).  Grouping has no date error: for every sequence of
    records it returns buckets, and every record, whatever its date text, is
    held in the bucket of the key computed from that text.  A date with
    fewer than three segments, or with one of its first three segments
    beginning, after white space, with a character that no numeric literal
    begins with, has the key ["NaN-NaN"].  A month number from 13 to 24 is
    carried into the next year: the text [DD/MM/YY] with the month [m + 12]
    has the key of month [m] of the year after. *)
Theorem grouping_keeps_unparsable_dates (surgeries : list Surgery) (r : Surgery) :
  In r surgeries ->
  (exists bucket,
     get (groupSurgeriesByMonth surgeries) (monthKey r) = Some bucket /\
     In r bucket) /\
  ((length (split_slash (Data_Realizacao r)) < 3)%nat ->
   monthKey r = str "NaN-NaN") /\
  (existsb not_numeric (firstn 3 (split_slash (Data_Realizacao r))) = true ->
   monthKey r = str "NaN-NaN") /\
  (forall d m y,
     0 <= y -> valid_date d m (y + 1) = true ->
     Data_Realizacao r = dd_mm_yy d (m + 12) y ->
     monthKey r = yyyy_mm (y + 1) m).
Proof.
  intros H. split; [apply record_in_its_bucket, H|].
  split; [intros L; apply monthKey_NaN, too_few_segments, L|].
  split; [intros N; apply monthKey_NaN, not_numeric_component, N|].
  intros d m y Hy V E. rewrite monthKey_dated, E.
  apply monthKey_month_beyond_12; assumption.
Qed.

Lemma grouping_keeps_unparsable_dates_witness :
  (exists bucket,
     get (groupSurgeriesByMonth [dated (str "ab/03/24"); dated (str "31/13/24")])
         (monthKey (dated (str "31/13/24"))) = Some bucket /\
     In (dated (str "31/13/24")) bucket) /\
  monthKey (dated (str "ab/03/24")) = str "NaN-NaN" /\
  monthKey (dated (str "15/03")) = str "NaN-NaN" /\
  monthKey (dated (str "31/13/24")) = str "2025-01".
Proof.
  destruct (grouping_keeps_unparsable_dates
              [dated (str "ab/03/24"); dated (str "31/13/24")]
              (dated (str "31/13/24"))) as [B [_ [_ C]]];
    [right; left; reflexivity|].
  destruct (grouping_keeps_unparsable_dates
              [dated (str "ab/03/24")] (dated (str "ab/03/24")))
    as [_ [_ [N _]]]; [left; reflexivity|].
  destruct (grouping_keeps_unparsable_dates
              [dated (str "15/03")] (dated (str "15/03")))
    as [_ [F _]]; [left; reflexivity|].
  split; [exact B|]. split; [apply N; vm_compute; reflexivity|].
  split; [apply F; vm_compute; lia|].
  apply (C 31 1 24); [lia | vm_compute; reflexivity | reflexivity].
Defined.

(** C2 (as stated) fails: a record dated ["31/13/24"] raises no error;
    [Date] carries month 13 into the next year and the record is filed
    under January 2025. *)
Lemma invalid_month_is_misfiled :
  date_components (str "31/13/24") = [Num 31; Num 13; Num 24] /\
  valid_date 31 13 24 = false /\
  groupSurgeriesByMonth [dated (str "31/13/24")] =
    [(str "2025-01", [dated (str "31/13/24")])].
Proof. repeat split; vm_compute; reflexivity. Qed.

(** * Further properties of the sanitizer *)

(** A match is [<], the optional slash, a non-empty run of word
    characters and [$]. *)
Lemma span_word_inv (s w r : jsstring) :
  span_word s = (w, r) -> s = w ++ r /\ forallb is_word w = true.
Proof.
  revert w r. induction s as [|c s IH]; simpl; intros w r H.
  - injection H as <- <-. auto.
  - destruct (is_word c) eqn:W.
    + destruct (span_word s) as [w' r'] eqn:E. injection H as <- <-.
      destruct (IH w' r' eq_refl) as [-> F]. simpl. rewrite W, F. auto.
    + injection H as <- <-. auto.
Qed.

Lemma match_word_dollar_inv (s rest : jsstring) :
  match_word_dollar s = Some rest ->
  exists w, w <> [] /\ forallb is_word w = true /\ s = w ++ DOLLAR :: rest.
Proof.
  unfold match_word_dollar. intros H.
  destruct (span_word s) as [w r] eqn:E.
  apply span_word_inv in E. destruct E as [-> F].
  destruct w as [|a w]; [discriminate|].
  destruct r as [|c r]; [discriminate|].
  destruct (Z.eqb_spec c DOLLAR); [|discriminate].
  injection H as <-. subst c. exists (a :: w). split; [discriminate | auto].
Qed.

Lemma regex_match_at_inv (s g1 rest : jsstring) :
  regex_match_at s = Some (g1, rest) ->
  exists w,
    (g1 = [] \/ g1 = [SLASH]) /\ w <> [] /\ forallb is_word w = true /\
    s = LT :: g1 ++ w ++ DOLLAR :: rest.
Proof.
  unfold regex_match_at.
  destruct s as [|c s1]; [discriminate|].
  destruct (Z.eqb_spec c LT); [subst c|discriminate].
  destruct s1 as [|c1 s2]; [discriminate|].
  destruct (Z.eqb_spec c1 SLASH).
  - subst c1. destruct (match_word_dollar s2) as [r|] eqn:E2.
    + intros H; injection H as <- <-.
      destruct (match_word_dollar_inv _ _ E2) as [w [N [F ->]]].
      exists w. auto.
    + destruct (match_word_dollar (SLASH :: s2)) as [r|] eqn:E1; [|discriminate].
      intros H; injection H as <- <-.
      destruct (match_word_dollar_inv _ _ E1) as [w [N [F E]]].
      exists w. rewrite E. auto.
  - destruct (match_word_dollar (c1 :: s2)) as [r|] eqn:E1; [|discriminate].
    intros H; injection H as <- <-.
    destruct (match_word_dollar_inv _ _ E1) as [w [N [F E]]].
    exists w. rewrite E. auto.
Qed.

Lemma regex_match_at_shrinks (s g1 rest : jsstring) :
  regex_match_at s = Some (g1, rest) ->
  (length (LT :: g1 ++ rest) < length s)%nat.
Proof.
  intros H. apply regex_match_at_inv in H.
  destruct H as [w [_ [N [_ ->]]]].
  destruct w as [|a w]; [contradiction|].
  simpl. rewrite !length_app. simpl. rewrite length_app. simpl. lia.
Qed.

Lemma replace_tag_dollar_length_aux (n : nat) (s : jsstring) :
  (length s <= n)%nat ->
  (length (replace_tag_dollar s) <= length s)%nat /\
  (has_match s = true -> (length (replace_tag_dollar s) < length s)%nat) /\
  (has_match s = false -> replace_tag_dollar s = s).
Proof.
  assert (length (replace_tag_dollar []) <= length (@nil Z) /\
          (has_match [] = true ->
           length (replace_tag_dollar []) < length (@nil Z)) /\
          (has_match [] = false -> replace_tag_dollar [] = []))%nat as Nil
    by (split; [reflexivity | split; [discriminate | reflexivity]]).
  revert s. induction n as [|n IH]; intros s Hn.
  - destruct s; [exact Nil | simpl in Hn; lia].
  - destruct s as [|c s]; [exact Nil|].
    rewrite replace_tag_dollar_cons. simpl has_match.
    destruct (regex_match_at (c :: s)) as [[g1 rest]|] eqn:E.
    + pose proof (regex_match_at_length _ _ _ E) as L.
      pose proof (regex_match_at_shrinks _ _ _ E) as Sh.
      destruct (IH rest ltac:(simpl in *; lia)) as [Le _].
      assert (length (LT :: g1 ++ replace_tag_dollar rest) < length (c :: s))%nat
        as Lt by (simpl in *; rewrite length_app in *; lia).
      repeat split; [lia | intros _; exact Lt | discriminate].
    + destruct (IH s ltac:(simpl in *; lia)) as [Le [Lt Id]].
      simpl. repeat split.
      * lia.
      * intros H. specialize (Lt H). lia.
      * intros H. rewrite Id by exact H. reflexivity.
Qed.

Lemma replace_tag_dollar_length (s : jsstring) :
  (length (replace_tag_dollar s) <= length s)%nat /\
  (has_match s = true -> (length (replace_tag_dollar s) < length s)%nat) /\
  (has_match s = false -> replace_tag_dollar s = s).
Proof. apply (replace_tag_dollar_length_aux (length s)). lia. Qed.

(** X1.  Sanitizing never lengthens a text. *)
Theorem sanitizeXML_length (s : jsstring) :
  (length (sanitizeXML s) <= length s)%nat.
Proof.
  unfold sanitizeXML, charCodeAt0, slice1.
  destruct s as [|c s]; [apply replace_tag_dollar_length|]. simpl hd_error.
  cbv iota. destruct (c =? BOM).
  - simpl tl. pose proof (proj1 (replace_tag_dollar_length s)). simpl. lia.
  - apply replace_tag_dollar_length.
Qed.

(** X2.  The texts that sanitizing leaves as they are are exactly those
    that do not start with a byte-order mark and in which the expression
    matches nowhere. *)
Theorem sanitizeXML_fixed_point (s : jsstring) :
  sanitizeXML s = s <->
  hd_error s <> Some BOM /\ has_match s = false.
Proof.
  unfold sanitizeXML, charCodeAt0, slice1.
  destruct s as [|c s].
  - simpl. split; [split; [discriminate | reflexivity] | reflexivity].
  - simpl hd_error. cbv iota. destruct (Z.eqb_spec c BOM) as [->|N].
    + simpl tl. split.
      * intros H. pose proof (proj1 (replace_tag_dollar_length s)) as L.
        rewrite H in L. simpl in L. lia.
      * intros [H _]. contradiction H. reflexivity.
    + destruct (replace_tag_dollar_length (c :: s)) as [_ [Lt Id]]. split.
      * intros H. split; [intros E; injection E as ->; contradiction|].
        destruct (has_match (c :: s)) eqn:M; [|reflexivity].
        specialize (Lt eq_refl). rewrite H in Lt. lia.
      * intros [_ M]. apply Id, M.
Qed.

(** X3.  Whatever the tag name, a malformed opening or closing tag name
    loses the whole name with the [$]: only [<], or [</], is left. *)
Theorem sanitizeXML_removes_tag_name (w rest : jsstring) :
  w <> [] ->
  forallb is_word w = true ->
  sanitizeXML (LT :: w ++ DOLLAR :: rest) = LT :: replace_tag_dollar rest /\
  sanitizeXML (LT :: SLASH :: w ++ DOLLAR :: rest)
    = LT :: SLASH :: replace_tag_dollar rest.
Proof.
  intros N F. destruct w as [|c w]; [contradiction|].
  destruct (replace_tag_dollar_removes_name c w rest F) as [A B].
  split; unfold sanitizeXML; simpl; assumption.
Qed.

Lemma sanitizeXML_removes_tag_name_witness :
  sanitizeXML (LT :: str "ROOT" ++ DOLLAR :: str ">x")
    = LT :: replace_tag_dollar (str ">x") /\
  sanitizeXML (LT :: SLASH :: str "ROOT" ++ DOLLAR :: str ">x")
    = LT :: SLASH :: replace_tag_dollar (str ">x").
Proof.
  apply sanitizeXML_removes_tag_name; [discriminate | reflexivity].
Defined.

(** * Further properties of the extractor *)

Lemma refines_for_each {A : Type} (body : A -> M unit)
    (spec : A -> list Surgery) (l : list A) :
  (forall x, appends (body x)) ->
  (forall x, In x l -> refines (body x) (spec x)) ->
  refines (for_each body l) (flat_map spec l).
Proof.
  intros Ha. induction l as [|x l IH]; intros H.
  - split; [exists []; reflexivity | reflexivity].
  - destruct (H x (or_introl eq_refl)) as [[r1 P1] E1].
    destruct (IH (fun y Hy => H y (or_intror Hy))) as [[r2 P2] E2].
    unfold refines. rewrite for_each_cons by exact Ha. simpl flat_map.
    destruct (body x []) as [o [[]|e]]; simpl in *.
    + rewrite <- (E1 eq_refl). split.
      * exists r2. rewrite P2 at 1. rewrite app_assoc. reflexivity.
      * intros N. rewrite (E2 N). reflexivity.
    + split; [|discriminate].
      exists (r1 ++ flat_map spec l). rewrite P1, app_assoc. reflexivity.
Qed.

Lemma refines_process_patient (date : jsstring) (p : Node) :
  refines (process_patient date p) (patient_records date p).
Proof.
  unfold refines, patient_records. rewrite process_patient_run.
  destruct (getElementsByTagName p (str "LIST_G_CIRURGIA")) as [|l ls].
  - split; [exists []; reflexivity | discriminate].
  - apply refines_for_each; [apply appends_process_surgery|].
    intros g _. unfold refines. rewrite process_surgery_run. simpl.
    split; [exists []; rewrite app_nil_r; reflexivity | reflexivity].
Qed.

Lemma refines_process_date_group (e : Node) :
  refines (process_date_group e)
    (if is_date_group e then date_group_records e else []).
Proof.
  unfold refines. rewrite process_date_group_run. unfold is_date_group.
  destruct (eqb_str (tagNameOf e) (str "G_DT_REALIZACAO")).
  - apply refines_for_each; [apply appends_process_patient|].
    intros p _. apply refines_process_patient.
  - split; [exists []; reflexivity | reflexivity].
Qed.

Lemma filter_flat_map {A B : Type} (f : B -> bool) (g : A -> list B)
    (l : list A) :
  filter f (flat_map g l) = flat_map (fun x => filter f (g x)) l.
Proof.
  induction l as [|x l IH]; [reflexivity|].
  simpl. rewrite filter_app, IH. reflexivity.
Qed.

Lemma flat_map_flat_map {A B C : Type} (f : B -> list C) (g : A -> list B)
    (l : list A) :
  flat_map f (flat_map g l) = flat_map (fun x => flat_map f (g x)) l.
Proof.
  induction l as [|x l IH]; [reflexivity|].
  simpl. rewrite flat_map_app, IH. reflexivity.
Qed.

Lemma date_groups_Element (t : jsstring) (cs : list Node) :
  date_groups (Element t cs) =
  (if is_date_group (Element t cs) then [Element t cs] else [])
  ++ flat_map date_groups cs.
Proof.
  unfold date_groups at 1. simpl filter.
  assert (filter is_date_group
            (flat_map (fun c => if isElement c then c :: descendants c else []) cs)
          = flat_map date_groups cs) as ->.
  { rewrite filter_flat_map. apply flat_map_ext. intros [t' cs'|d]; reflexivity. }
  destruct (is_date_group (Element t cs)); reflexivity.
Qed.

Lemma document_records_Element (t : jsstring) (cs : list Node) :
  document_records (Element t cs) =
  (if is_date_group (Element t cs) then date_group_records (Element t cs) else [])
  ++ flat_map document_records cs.
Proof.
  unfold document_records at 1. rewrite date_groups_Element, flat_map_app.
  rewrite flat_map_flat_map. f_equal.
  destruct (is_date_group (Element t cs)); simpl; [apply app_nil_r | reflexivity].
Qed.

(** The traversal pushes the records of the document in document order,
    up to the point where it fails. *)
Lemma refines_processElement (n : Node) :
  refines (processElement n) (document_records n).
Proof.
  induction n as [d | t cs IH] using Node_ind.
  - split; [exists []; reflexivity | reflexivity].
  - rewrite Forall_forall in IH.
    pose proof (refines_for_each processElement document_records cs
                  appends_processElement IH) as [[r2 P2] E2].
    destruct (refines_process_date_group (Element t cs)) as [[r1 P1] E1].
    unfold refines. rewrite processElement_run, document_records_Element.
    destruct (process_date_group (Element t cs) []) as [o [[]|e]]; simpl in *.
    + rewrite <- (E1 eq_refl). split.
      * exists r2. rewrite P2 at 1. rewrite app_assoc. reflexivity.
      * intros N. rewrite (E2 N). reflexivity.
    + split; [|discriminate].
      exists (r1 ++ flat_map document_records cs).
      rewrite P1, app_assoc. reflexivity.
Qed.

Lemma In_date_groups (doc e : Node) :
  In e (date_groups doc) <->
  In e (doc :: descendants doc) /\ tagNameOf e = str "G_DT_REALIZACAO".
Proof.
  unfold date_groups, is_date_group. rewrite filter_In, eqb_str_eq. tauto.
Qed.

(** The traversal completes exactly when every patient group below a date
    group has a surgery list; otherwise it throws the TypeError. *)
Lemma processElement_outcome (doc : Node) :
  snd (processElement doc []) =
  if patients_have_lists doc then Normal tt else Throw TypeError.
Proof.
  destruct (patients_have_lists doc) eqn:P.
  - destruct (snd (processElement doc [])) as [[]|x] eqn:S; [reflexivity|].
    exfalso. apply processElement_throw in S.
    destruct S as [_ [e [p [He [T [Hp Hl]]]]]].
    unfold patients_have_lists in P. rewrite forallb_forall in P.
    specialize (P e (proj2 (In_date_groups doc e) (conj He T))).
    rewrite forallb_forall in P. specialize (P p Hp).
    rewrite Hl in P. discriminate.
  - unfold patients_have_lists in P.
    apply not_true_iff_false in P.
    destruct (forallb_forall
                (fun e => forallb
                   (fun p => match getElementsByTagName p (str "LIST_G_CIRURGIA")
                             with [] => false | _ :: _ => true end)
                   (getElementsByTagName e (str "G_NM_PACIENTE")))
                (date_groups doc)) as [_ F].
    destruct (snd (processElement doc [])) as [[]|x] eqn:S.
    + exfalso. apply P, F. intros e He. apply forallb_forall. intros p Hp.
      apply In_date_groups in He. destruct He as [He T].
      destruct (getElementsByTagName p (str "LIST_G_CIRURGIA")) eqn:L;
        [|reflexivity].
      pose proof (missing_list_TypeError doc e p He T Hp L) as S'.
      rewrite S in S'. discriminate.
    + apply processElement_throw in S. destruct S as [-> _]. reflexivity.
Qed.


Lemma processElement_completed (doc : Node) :
  patients_have_lists doc = true ->
  processElement doc [] = (document_records doc, Normal tt).
Proof.
  intros P. pose proof (processElement_outcome doc) as O. rewrite P in O.
  destruct (refines_processElement doc) as [_ E].
  destruct (processElement doc []) as [o c]. simpl in *. subst c.
  rewrite (E eq_refl). reflexivity.
Qed.

Lemma Monthly_parseXML_eq (parseFromString : jsstring -> Node)
    (xmlString : jsstring) :
  Monthly.parseXML parseFromString xmlString =
  match document_getElementsByTagName (parseFromString (sanitizeXML xmlString))
          (str "parsererror") with
  | e :: _ => Throw (XMLParsingError (textContent e))
  | [] =>
      if patients_have_lists (parseFromString (sanitizeXML xmlString))
      then Normal (document_records (parseFromString (sanitizeXML xmlString)))
      else Throw (ProcessingError TypeError)
  end.
Proof.
  unfold Monthly.parseXML. cbv zeta.
  set (doc := parseFromString (sanitizeXML xmlString)).
  destruct (document_getElementsByTagName doc (str "parsererror")); [|reflexivity].
  pose proof (processElement_outcome doc) as O.
  destruct (refines_processElement doc) as [_ E].
  destruct (processElement doc []) as [o c]. simpl in *. subst c.
  destruct (patients_have_lists doc); [|reflexivity].
  rewrite (E eq_refl). reflexivity.
Qed.

Lemma SingleWorkbook_parseXML_eq (parseFromString : jsstring -> Node)
    (xmlString : jsstring) :
  SingleWorkbook.parseXML parseFromString xmlString =
  match document_getElementsByTagName (parseFromString (sanitizeXML xmlString))
          (str "parsererror") with
  | e :: _ => (None, Throw (XMLParsingError (textContent e)))
  | [] =>
      (if patients_have_lists (parseFromString (sanitizeXML xmlString))
       then None else Some TypeError,
       Normal (fst (processElement (parseFromString (sanitizeXML xmlString)) [])))
  end.
Proof.
  unfold SingleWorkbook.parseXML. cbv zeta.
  set (doc := parseFromString (sanitizeXML xmlString)).
  destruct (document_getElementsByTagName doc (str "parsererror")); [|reflexivity].
  pose proof (processElement_outcome doc) as O.
  destruct (processElement doc []) as [o c]. simpl in *. subst c.
  destruct (patients_have_lists doc); reflexivity.
Qed.

(** X4.  The monthly [parseXML] in closed form: a parse error when the
    parsed document holds a [parsererror] element; otherwise, when every
    patient group below a date group has a surgery list, the records of all
    date groups in document order, each with its patient groups and their
    surgery groups in document order; otherwise the TypeError wrapped as a
    processing error. *)
Theorem Monthly_parseXML_closed_form (parseFromString : jsstring -> Node)
    (xmlString : jsstring) :
  Monthly.parseXML parseFromString xmlString =
  let doc := parseFromString (sanitizeXML xmlString) in
  match document_getElementsByTagName doc (str "parsererror") with
  | e :: _ => Throw (XMLParsingError (textContent e))
  | [] =>
      if patients_have_lists doc then Normal (document_records doc)
      else Throw (ProcessingError TypeError)
  end.
Proof.
  unfold Monthly.parseXML. cbv zeta.
  set (doc := parseFromString (sanitizeXML xmlString)).
  destruct (document_getElementsByTagName doc (str "parsererror")); [|reflexivity].
  rewrite (surjective_pairing (processElement doc [])).
  rewrite processElement_outcome.
  destruct (patients_have_lists doc) eqn:P; [|reflexivity].
  rewrite processElement_completed by exact P. reflexivity.
Qed.

(** X5.  The single-workbook [parseXML] in closed form.  It differs from
    the monthly one when a patient group has no surgery list: it then
    returns, with the TypeError handed to [setError], a list that is a
    prefix of the records of the document. *)
Theorem SingleWorkbook_parseXML_closed_form (parseFromString : jsstring -> Node)
    (xmlString : jsstring) :
  let doc := parseFromString (sanitizeXML xmlString) in
  match document_getElementsByTagName doc (str "parsererror") with
  | e :: _ =>
      SingleWorkbook.parseXML parseFromString xmlString
      = (None, Throw (XMLParsingError (textContent e)))
  | [] =>
      if patients_have_lists doc then
        SingleWorkbook.parseXML parseFromString xmlString
        = (None, Normal (document_records doc))
      else
        exists partial rest,
          SingleWorkbook.parseXML parseFromString xmlString
          = (Some TypeError, Normal partial) /\
          document_records doc = partial ++ rest
  end.
Proof.
  unfold SingleWorkbook.parseXML. cbv zeta.
  set (doc := parseFromString (sanitizeXML xmlString)).
  destruct (document_getElementsByTagName doc (str "parsererror")); [|reflexivity].
  pose proof (processElement_outcome doc) as O.
  destruct (refines_processElement doc) as [[rest P] E].
  destruct (processElement doc []) as [o c]. simpl in *. subst c.
  destruct (patients_have_lists doc).
  - rewrite (E eq_refl). reflexivity.
  - exists o, rest. auto.
Qed.

(** X6.  A document without date-realization group gives the empty record
    list, in both variants, whatever else it holds. *)
Theorem no_date_group_no_record (parseFromString : jsstring -> Node)
    (xmlString : jsstring) :
  date_groups (parseFromString (sanitizeXML xmlString)) = [] ->
  document_getElementsByTagName (parseFromString (sanitizeXML xmlString))
    (str "parsererror") = [] ->
  Monthly.parseXML parseFromString xmlString = Normal [] /\
  SingleWorkbook.parseXML parseFromString xmlString = (None, Normal []).
Proof.
  intros D PE.
  pose proof (processElement_completed
                (parseFromString (sanitizeXML xmlString))) as R.
  unfold patients_have_lists, document_records in R. rewrite D in R.
  specialize (R eq_refl). simpl in R.
  unfold Monthly.parseXML, SingleWorkbook.parseXML. rewrite PE, R. auto.
Qed.

Lemma no_date_group_no_record_witness :
  Monthly.parseXML (fun _ => doc_stray_patient) (str "<x/>") = Normal [] /\
  SingleWorkbook.parseXML (fun _ => doc_stray_patient) (str "<x/>")
    = (None, Normal []).
Proof.
  apply no_date_group_no_record; reflexivity.
Defined.

(** X7.  The traversal only appends: what the array held before is kept in
    place, and neither the records pushed nor the completion depend on
    it. *)
Theorem processElement_only_appends (element : Node) (surgeries : list Surgery) :
  processElement element surgeries =
  (surgeries ++ fst (processElement element []),
   snd (processElement element [])).
Proof. apply appends_processElement. Qed.

(** * Further properties of the month grouper *)

Lemma first_occurrences_snoc (l : list jsstring) (k : jsstring) :
  first_occurrences (l ++ [k]) =
  if existsb (eqb_str k) l then first_occurrences l
  else first_occurrences l ++ [k].
Proof.
  induction l as [|a l IH]; [reflexivity|].
  simpl. rewrite IH. rewrite (eqb_str_sym k a).
  destruct (eqb_str a k) eqn:E; simpl.
  - destruct (existsb (eqb_str k) l); [reflexivity|].
    rewrite filter_app. simpl. rewrite E. simpl. rewrite app_nil_r. reflexivity.
  - destruct (existsb (eqb_str k) l); [reflexivity|].
    rewrite filter_app. simpl. rewrite E. reflexivity.
Qed.

Lemma existsb_monthKey (rs : list Surgery) (k : jsstring) :
  existsb (eqb_str k) (map monthKey rs) =
  match records_of_month k rs with [] => false | _ :: _ => true end.
Proof.
  unfold records_of_month. induction rs as [|r rs IH]; [reflexivity|].
  simpl. rewrite (eqb_str_sym k). destruct (eqb_str (monthKey r) k); simpl;
    [reflexivity | exact IH].
Qed.

Lemma keys_group_step (acc : buckets) (r : Surgery) :
  map fst (group_step acc r) =
  match get acc (monthKey r) with
  | Some _ => map fst acc
  | None => map fst acc ++ [monthKey r]
  end.
Proof.
  unfold group_step, ensure. rewrite keys_push_at.
  destruct (get acc (monthKey r)) eqn:E; [reflexivity|].
  rewrite set_absent by exact E. rewrite map_app. reflexivity.
Qed.

Lemma keys_groupSurgeriesByMonth (rs : list Surgery) :
  map fst (groupSurgeriesByMonth rs) = first_occurrences (map monthKey rs).
Proof.
  induction rs as [|r rs IH] using rev_ind; [reflexivity|].
  rewrite groupSurgeriesByMonth_snoc, keys_group_step, map_app.
  simpl map. rewrite first_occurrences_snoc, existsb_monthKey, IH.
  rewrite get_groupSurgeriesByMonth.
  destruct (records_of_month (monthKey r) rs); reflexivity.
Qed.

Lemma buckets_from_keys (acc : buckets) (f : jsstring -> list Surgery) :
  (forall k b, In (k, b) acc -> b = f k) ->
  acc = map (fun k => (k, f k)) (map fst acc).
Proof.
  induction acc as [|[k b] acc IH]; intros H; [reflexivity|].
  simpl. rewrite <- (H k b (or_introl eq_refl)).
  rewrite <- IH by (intros k' b' Hin; apply H; right; exact Hin).
  reflexivity.
Qed.

Lemma bucket_is_month (rs : list Surgery) (k : jsstring) (b : list Surgery) :
  In (k, b) (groupSurgeriesByMonth rs) ->
  b = records_of_month k rs /\ b <> [].
Proof.
  intros H. apply In_get in H; [|apply NoDup_keys_groupSurgeriesByMonth].
  rewrite get_groupSurgeriesByMonth in H.
  destruct (records_of_month k rs); [discriminate|].
  injection H as <-. split; [reflexivity | discriminate].
Qed.

(** X8.  Grouping in closed form: one bucket for each month key that
    occurs, in the order in which the keys first occur in the input, each
    holding the records of its month in input order. *)
Theorem groupSurgeriesByMonth_closed_form (surgeries : list Surgery) :
  groupSurgeriesByMonth surgeries =
  map (fun key => (key, records_of_month key surgeries))
    (first_occurrences (map monthKey surgeries)).
Proof.
  rewrite <- keys_groupSurgeriesByMonth.
  apply buckets_from_keys. intros k b H. apply bucket_is_month, H.
Qed.

Lemma length_le_total_size (acc : buckets) :
  (forall k b, In (k, b) acc -> b <> []) ->
  (length acc <= total_size acc)%nat.
Proof.
  unfold total_size.
  induction acc as [|[k b] acc IH]; intros H; simpl; [lia|].
  assert (b <> []) as N by (apply (H k); left; reflexivity).
  assert (length acc <= list_sum (map (fun kb => length (snd kb)) acc))%nat
    by (apply IH; intros k' b' Hin; apply (H k'); right; exact Hin).
  destruct b; [contradiction | simpl; lia].
Qed.

(** X9.  No bucket is empty, so there are at most as many buckets as
    records; and there is no bucket at all exactly when there is no
    record. *)
Theorem buckets_nonempty (surgeries : list Surgery) :
  (forall key b, In (key, b) (groupSurgeriesByMonth surgeries) -> b <> []) /\
  (length (groupSurgeriesByMonth surgeries) <= length surgeries)%nat /\
  (groupSurgeriesByMonth surgeries = [] <-> surgeries = []).
Proof.
  assert (forall key b, In (key, b) (groupSurgeriesByMonth surgeries) -> b <> [])
    as N by (intros k b H; apply (bucket_is_month surgeries k b H)).
  split; [exact N|]. split.
  - rewrite <- total_size_groupSurgeriesByMonth. apply length_le_total_size, N.
  - split; [|intros ->; reflexivity].
    intros E. pose proof (total_size_groupSurgeriesByMonth surgeries) as T.
    rewrite E in T. destruct surgeries; [reflexivity | discriminate].
Qed.

Lemma bucket_groupSurgeriesByMonth (rs : list Surgery) (k : jsstring) :
  bucket (groupSurgeriesByMonth rs) k = records_of_month k rs.
Proof.
  unfold bucket. rewrite get_groupSurgeriesByMonth.
  destruct (records_of_month k rs); reflexivity.
Qed.

(** X10.  Grouping two lists one after the other: the bucket of a key is
    the bucket of the first list followed by the bucket of the second. *)
Theorem grouping_app (first second : list Surgery) (key : jsstring) :
  bucket (groupSurgeriesByMonth (first ++ second)) key =
  bucket (groupSurgeriesByMonth first) key
  ++ bucket (groupSurgeriesByMonth second) key.
Proof.
  rewrite !bucket_groupSurgeriesByMonth. unfold records_of_month.
  apply filter_app.
Qed.

Lemma MonthFromTime_range (t : Z) : 0 <= MonthFromTime t <= 11.
Proof.
  unfold MonthFromTime. cbv zeta.
  repeat match goal with
         | |- context [if ?a <? ?b then _ else _] => destruct (a <? b)
         end; lia.
Qed.

(** X11.  Every month key is either ["NaN-NaN"] or the text of a year,
    a hyphen and a two-digit month from 01 to 12. *)
Theorem monthKey_shape (surgery : Surgery) :
  monthKey surgery = str "NaN-NaN" \/
  exists year month,
    1 <= month <= 12 /\
    monthKey surgery = toString (Num year) ++ str "-" ++ digits2 month.
Proof.
  unfold monthKey.
  destruct (parseBrazilianDate (Data_Realizacao surgery)) as [t|];
    [right | left; reflexivity].
  pose proof (MonthFromTime_range t) as R.
  exists (YearFromTime t), (MonthFromTime t + 1). split; [lia|].
  cbn [getFullYear getMonth add].
  rewrite padStart2_month by lia. reflexivity.
Qed.

(** X12.  A month number beyond 12 is carried into the next year: the
    text [DD/MM/YY] with the month [m + 12] has the key of month [m] of the
    year after. *)
Theorem monthKey_month_carry (d m y : Z) :
  0 <= y ->
  valid_date d m (y + 1) = true ->
  monthKey (dated (dd_mm_yy d (m + 12) y)) = yyyy_mm (y + 1) m.
Proof.
  intros Hy0 V. destruct (valid_date_ranges d m (y + 1) V) as [Hy [Hm [Hd D31]]].
  unfold monthKey, parseBrazilianDate, dated, Data_Realizacao.
  rewrite split_slash_dd_mm_yy by lia.
  cbn [map array_element nth].
  rewrite !Number_digits2 by lia.
  cbn [add sub]. unfold new_Date.
  replace ((0 <=? 2000 + y) && (2000 + y <=? 99)) with false by lia.
  replace (m + 12 - 1) with (m - 1 + 12) by lia.
  rewrite MakeDay_month_carry.
  replace (2000 + y + 1) with (2000 + (y + 1)) by lia.
  rewrite TimeClip_century by lia.
  destruct (getFullYear_valid (2000 + (y + 1)) m d Hm Hd) as [GY GM].
  cbn [getFullYear getMonth]. rewrite GY, GM. cbn [add].
  replace (m - 1 + 1) with m by lia.
  rewrite toString_year by lia. rewrite padStart2_month by lia.
  unfold yyyy_mm. rewrite <- !app_assoc. reflexivity.
Qed.

Lemma monthKey_month_carry_witness :
  monthKey (dated (str "31/13/24")) = str "2025-01".
Proof.
  apply (monthKey_month_carry 31 1 24); [lia | vm_compute; reflexivity].
Defined.

Lemma MakeDay_day_carry (Y m d : Z) :
  1 <= m <= 11 ->
  MakeDay Y (m - 1) (days_in_month Y m + d) = MakeDay Y m d.
Proof.
  intros Hm. unfold MakeDay.
  replace ((m - 1) / 12) with 0 by (Z.div_mod_to_equations; lia).
  replace ((m - 1) mod 12) with (m - 1) by (Z.div_mod_to_equations; lia).
  replace (m / 12) with 0 by (Z.div_mod_to_equations; lia).
  replace (m mod 12) with m by (Z.div_mod_to_equations; lia).
  rewrite Z.add_0_r.
  assert (month_start (InLeapYear Y) m
          = month_start (InLeapYear Y) (m - 1) + days_in_month Y m) as E.
  { unfold days_in_month.
    assert (In m [1; 2; 3; 4; 5; 6; 7; 8; 9; 10; 11]) as C by (simpl; lia).
    destruct (InLeapYear Y);
      repeat (destruct C as [<-|C]; [vm_compute; reflexivity|]); destruct C. }
  lia.
Qed.

(** X13.  A day number beyond the end of the month is carried into the next
    month: the text [DD/MM/YY] whose day is [d] more than the length of
    month [m] has the key of month [m + 1]. *)
Theorem monthKey_day_carry (d m y : Z) :
  1 <= m <= 11 ->
  valid_date d (m + 1) y = true ->
  monthKey (dated (dd_mm_yy (days_in_month (2000 + y) m + d) m y))
  = yyyy_mm y (m + 1).
Proof.
  intros Hm V.
  destruct (valid_date_ranges d (m + 1) y V) as [Hy [Hm' [Hd D31]]].
  assert (28 <= days_in_month (2000 + y) m <= 31) as Dm
    by (unfold days_in_month;
        repeat match goal with |- context [if ?b then _ else _] => destruct b end;
        lia).
  unfold monthKey, parseBrazilianDate, dated, Data_Realizacao.
  rewrite split_slash_dd_mm_yy by lia.
  cbn [map array_element nth].
  rewrite !Number_digits2 by lia.
  cbn [add sub]. unfold new_Date.
  replace ((0 <=? 2000 + y) && (2000 + y <=? 99)) with false by lia.
  rewrite MakeDay_day_carry by lia.
  replace m with (m + 1 - 1) at 1 2 by lia.
  rewrite TimeClip_century by lia.
  destruct (getFullYear_valid (2000 + y) (m + 1) d Hm' Hd) as [GY GM].
  cbn [getFullYear getMonth]. rewrite GY, GM. cbn [add].
  replace (m + 1 - 1 + 1) with (m + 1) by lia.
  rewrite toString_year by lia. rewrite padStart2_month by lia.
  unfold yyyy_mm. rewrite <- !app_assoc. reflexivity.
Qed.

Lemma monthKey_day_carry_witness :
  monthKey (dated (str "31/04/24")) = str "2024-05".
Proof.
  apply (monthKey_day_carry 1 4 24); [lia | vm_compute; reflexivity].
Defined.

(** * The form handlers *)

Lemma files_written_app (a b : list effect) :
  files_written (a ++ b) = files_written a ++ files_written b.
Proof.
  induction a as [|[name sheet data|v|v|d] a IH]; simpl; rewrite ?IH; reflexivity.
Qed.

Lemma last_setError_app (a b : list effect) :
  last_setError (a ++ b) =
  match last_setError b with
  | Some v => Some v
  | None => last_setError a
  end.
Proof.
  induction a as [|[name sheet data|v|v|d] a IH]; simpl; rewrite ?IH;
    destruct (last_setError b); reflexivity.
Qed.

Lemma last_setConversionStatus_app (a b : list effect) :
  last_setConversionStatus (a ++ b) =
  match last_setConversionStatus b with
  | Some v => Some v
  | None => last_setConversionStatus a
  end.
Proof.
  induction a as [|[name sheet data|v|v|d] a IH]; simpl; rewrite ?IH;
    destruct (last_setConversionStatus b); reflexivity.
Qed.

Lemma files_written_writes (books : list (jsstring * list Surgery)) :
  files_written (writes books) = books.
Proof.
  induction books as [|[n d] books IH]; [reflexivity|].
  simpl. rewrite IH. reflexivity.
Qed.

Lemma last_setError_writes (books : list (jsstring * list Surgery)) :
  last_setError (writes books) = None.
Proof. induction books as [|[n d] books IH]; [reflexivity | exact IH]. Qed.

Lemma last_setConversionStatus_writes (books : list (jsstring * list Surgery)) :
  last_setConversionStatus (writes books) = None.
Proof. induction books as [|[n d] books IH]; [reflexivity | exact IH]. Qed.

Lemma forEach_cons {A : Type} (body : A -> list effect * option jsstring)
    (x : A) (l : list A) :
  forEach body (x :: l) =
  match body x with
  | (done, None) =>
      let (rest, thrown) := forEach body l in (done ++ rest, thrown)
  | (done, Some message) => (done, Some message)
  end.
Proof. reflexivity. Qed.

(** The loop [months.forEach(...)] writes the workbooks of the buckets in
    order, up to the first error of the writer. *)
Lemma forEach_month (writer : jsstring -> list Surgery -> option jsstring)
    (acc : buckets) :
  NoDup (map fst acc) ->
  forEach
    (fun month =>
       match get acc month with
       | Some data => MonthlyForm.convertToExcel writer data month
       | None => ([], None)
       end) (Object_keys acc)
  = (writes (written_books writer
               (map (fun kb => (str "cirurgias_" ++ fst kb ++ str ".xlsx", snd kb))
                  acc)),
     first_writer_error writer
       (map (fun kb => (str "cirurgias_" ++ fst kb ++ str ".xlsx", snd kb)) acc)).
Proof.
  intros N. unfold Object_keys.
  assert (forall l, incl l acc ->
            forEach
              (fun month =>
                 match get acc month with
                 | Some data => MonthlyForm.convertToExcel writer data month
                 | None => ([], None)
                 end) (map fst l)
            = (writes (written_books writer
                 (map (fun kb => (str "cirurgias_" ++ fst kb ++ str ".xlsx", snd kb))
                    l)),
               first_writer_error writer
                 (map (fun kb => (str "cirurgias_" ++ fst kb ++ str ".xlsx", snd kb))
                    l))) as H.
  { induction l as [|[k b] l IH]; intros Hl; [reflexivity|].
    specialize (IH (fun x Hx => Hl x (or_intror Hx))).
    cbn [map fst snd written_books first_writer_error].
    rewrite forEach_cons, (In_get acc k b N) by (apply Hl; left; reflexivity).
    unfold MonthlyForm.convertToExcel in *. cbv zeta in *.
    destruct (writer (str "cirurgias_" ++ k ++ str ".xlsx") b); [reflexivity|].
    rewrite IH. reflexivity. }
  apply H, incl_refl.
Qed.

Lemma month_books_group (rs : list Surgery) :
  map (fun kb => (str "cirurgias_" ++ fst kb ++ str ".xlsx", snd kb))
    (groupSurgeriesByMonth rs)
  = month_books rs.
Proof.
  rewrite (buckets_from_keys (groupSurgeriesByMonth rs)
             (fun k => records_of_month k rs))
    by (intros k b H; apply bucket_is_month, H).
  rewrite keys_groupSurgeriesByMonth, map_map. reflexivity.
Qed.

Lemma length_month_books (rs : list Surgery) :
  length (month_books rs) = length (Object_keys (groupSurgeriesByMonth rs)).
Proof.
  rewrite <- month_books_group. unfold Object_keys. rewrite !length_map.
  reflexivity.
Qed.

(** The monthly handler once the extraction returned at least one record. *)
Lemma MonthlyForm_handleSubmit_records decode parseFromString TypeError_message
    writer arrayBuffer (r : Surgery) (rs : list Surgery) :
  Monthly.parseXML parseFromString (decode arrayBuffer) = Normal (r :: rs) ->
  MonthlyForm.handleSubmit decode parseFromString TypeError_message writer
    (Some (resolved arrayBuffer))
  = writes (written_books writer (month_books (r :: rs)))
    ++ match first_writer_error writer (month_books (r :: rs)) with
       | None =>
           [setConversionStatus
              (Some (str "Processados " ++ count_text (length (r :: rs))
                     ++ str " registros. Criados "
                     ++ count_text (length (month_books (r :: rs)))
                     ++ str " arquivos Excel."));
            setError None]
       | Some message =>
           [setError (Some (str "Erro ao processar o arquivo: " ++ message))]
       end.
Proof.
  intros H. unfold MonthlyForm.handleSubmit. rewrite H. cbv zeta.
  rewrite forEach_month by apply NoDup_keys_groupSurgeriesByMonth.
  rewrite month_books_group, length_month_books.
  destruct (first_writer_error writer (month_books (r :: rs))); reflexivity.
Qed.

Lemma written_books_prefix writer (books : list (jsstring * list Surgery)) :
  exists rest, books = written_books writer books ++ rest.
Proof.
  induction books as [|[n d] books [rest IH]]; [exists []; reflexivity|].
  simpl. destruct (writer n d).
  - exists ((n, d) :: books). reflexivity.
  - exists rest. simpl. rewrite <- IH. reflexivity.
Qed.

Lemma written_books_all writer (books : list (jsstring * list Surgery)) :
  first_writer_error writer books = None ->
  written_books writer books = books.
Proof.
  induction books as [|[n d] books IH]; [reflexivity|].
  simpl. destruct (writer n d); [discriminate|].
  intros H. rewrite IH by exact H. reflexivity.
Qed.

Lemma written_books_none writer (books : list (jsstring * list Surgery)) :
  written_books writer books = [] ->
  books = [] \/ first_writer_error writer books <> None.
Proof.
  destruct books as [|[n d] books]; [auto|].
  simpl. destruct (writer n d); [right; discriminate | discriminate].
Qed.

Lemma workbook_name_inj (k1 k2 : jsstring) :
  str "cirurgias_" ++ k1 ++ str ".xlsx" = str "cirurgias_" ++ k2 ++ str ".xlsx" ->
  k1 = k2.
Proof.
  intros H. apply app_inv_head in H. apply app_inv_tail in H. exact H.
Qed.

Lemma NoDup_workbook_names (keys : list jsstring) :
  NoDup keys ->
  NoDup (map (fun k => str "cirurgias_" ++ k ++ str ".xlsx") keys).
Proof.
  induction 1 as [|k keys Hk N IH]; simpl; constructor; [|exact IH].
  intros H. apply in_map_iff in H. destruct H as [k' [E Hk']].
  apply workbook_name_inj in E. subst k'. contradiction.
Qed.

Lemma NoDup_month_books (rs : list Surgery) :
  NoDup (map fst (month_books rs)).
Proof.
  unfold month_books. rewrite map_map. simpl.
  apply NoDup_workbook_names.
  rewrite <- keys_groupSurgeriesByMonth. apply NoDup_keys_groupSurgeriesByMonth.
Qed.

Lemma NoDup_written_books writer (rs : list Surgery) :
  NoDup (map fst (written_books writer (month_books rs))).
Proof.
  pose proof (NoDup_month_books rs) as N.
  destruct (written_books_prefix writer (month_books rs)) as [rest E].
  rewrite E, map_app in N. apply NoDup_app_remove_r in N. exact N.
Qed.

(** X14.  The monthly form end to end, for a file that was read.  Workbooks
    are written only when the parsed document has no [parsererror] element
    and every patient group below a date group has a surgery list.  The
    workbooks then due are one for each month key of the records of the
    document, in the order in which the keys first occur, named
    [cirurgias_KEY.xlsx] and holding the records of that month in document
    order; they are written in that order up to the first one on which the
    spreadsheet writer throws, and all of them when it throws on none.  The
    file names written are pairwise different. *)
Theorem MonthlyForm_workbooks decode parseFromString TypeError_message writer
    (arrayBuffer : list Z) :
  let doc := parseFromString (sanitizeXML (decode arrayBuffer)) in
  let trace :=
    MonthlyForm.handleSubmit decode parseFromString TypeError_message writer
      (Some (resolved arrayBuffer)) in
  let due :=
    map (fun key => (str "cirurgias_" ++ key ++ str ".xlsx",
                     records_of_month key (document_records doc)))
      (first_occurrences (map monthKey (document_records doc))) in
  files_written trace =
    match document_getElementsByTagName doc (str "parsererror") with
    | _ :: _ => []
    | [] => if patients_have_lists doc then written_books writer due else []
    end /\
  (first_writer_error writer due = None -> written_books writer due = due) /\
  NoDup (map fst (files_written trace)).
Proof.
  cbv zeta.
  set (doc := parseFromString (sanitizeXML (decode arrayBuffer))).
  fold (month_books (document_records doc)).
  assert (files_written
            (MonthlyForm.handleSubmit decode parseFromString TypeError_message
               writer (Some (resolved arrayBuffer)))
          = match document_getElementsByTagName doc (str "parsererror") with
            | _ :: _ => []
            | [] =>
                if patients_have_lists doc
                then written_books writer (month_books (document_records doc))
                else []
            end) as E.
  { pose proof (Monthly_parseXML_eq parseFromString (decode arrayBuffer)) as P.
    fold doc in P.
    destruct (document_getElementsByTagName doc (str "parsererror")).
    - destruct (patients_have_lists doc).
      + destruct (document_records doc) as [|r rs] eqn:R.
        * unfold MonthlyForm.handleSubmit. rewrite P. reflexivity.
        * rewrite (MonthlyForm_handleSubmit_records _ _ _ _ _ r rs P).
          rewrite files_written_app, files_written_writes.
          destruct (first_writer_error writer (month_books (r :: rs)));
            simpl; apply app_nil_r.
      + unfold MonthlyForm.handleSubmit. rewrite P. reflexivity.
    - unfold MonthlyForm.handleSubmit. rewrite P. reflexivity. }
  split; [exact E|]. split; [apply written_books_all|]. rewrite E.
  destruct (document_getElementsByTagName doc (str "parsererror")); [|constructor].
  destruct (patients_have_lists doc); [|constructor].
  apply NoDup_written_books.
Qed.

Lemma total_rows_month_books (rs : list Surgery) :
  list_sum (map (fun f : jsstring * list Surgery => length (snd f)) (month_books rs))
  = length rs.
Proof.
  rewrite <- month_books_group, map_map. simpl.
  apply total_size_groupSurgeriesByMonth.
Qed.

(** X15.  When the monthly [parseXML] returned at least one record and the
    spreadsheet writer throws on none of the workbooks due, the status text
    reports what was written: its first number is the total number of rows
    of the workbooks written, which is the number of records extracted, and
    its second number is the number of workbooks written; the error state
    is cleared. *)
Theorem MonthlyForm_status decode parseFromString TypeError_message writer
    (arrayBuffer : list Z) (parsedData : list Surgery) :
  Monthly.parseXML parseFromString (decode arrayBuffer) = Normal parsedData ->
  parsedData <> [] ->
  first_writer_error writer (month_books parsedData) = None ->
  let trace :=
    MonthlyForm.handleSubmit decode parseFromString TypeError_message writer
      (Some (resolved arrayBuffer)) in
  let rows :=
    list_sum (map (fun f => length (snd f)) (files_written trace)) in
  last_setConversionStatus trace =
    Some (Some (str "Processados " ++ count_text rows
                ++ str " registros. Criados "
                ++ count_text (length (files_written trace))
                ++ str " arquivos Excel.")) /\
  rows = length parsedData /\
  files_written trace = month_books parsedData /\
  last_setError trace = Some None.
Proof.
  intros P N W. destruct parsedData as [|r rs]; [contradiction|]. cbv zeta.
  rewrite (MonthlyForm_handleSubmit_records _ _ _ _ _ r rs P), W.
  rewrite files_written_app, files_written_writes. simpl files_written.
  rewrite app_nil_r, (written_books_all _ _ W), total_rows_month_books.
  rewrite last_setConversionStatus_app, last_setError_app.
  repeat split; reflexivity.
Qed.

Lemma MonthlyForm_status_witness :
  let trace :=
    MonthlyForm.handleSubmit (fun _ => str "<x/>") (fun _ => sample_doc)
      (str "undefined") (fun _ _ => None) (Some (resolved [])) in
  last_setConversionStatus trace =
    Some (Some (str "Processados 2 registros. Criados 1 arquivos Excel.")) /\
  list_sum (map (fun f => length (snd f)) (files_written trace)) = 2%nat /\
  files_written trace =
    [(str "cirurgias_2024-03.xlsx", [sample_record_GERAL; sample_record_no_leaf])] /\
  last_setError trace = Some None.
Proof.
  apply (MonthlyForm_status (fun _ => str "<x/>") (fun _ => sample_doc)
           (str "undefined") (fun _ _ => None) []
           [sample_record_GERAL; sample_record_no_leaf]).
  - vm_compute. reflexivity.
  - discriminate.
  - vm_compute. reflexivity.
Defined.

(** X16.  The error state the monthly form ends with, for a file that was
    read, from the parsed document: the parse error text; or the TypeError
    text wrapped twice when a patient group below a date group has no
    surgery list; or the no-data text when the document has no record; or
    the text of the first error the spreadsheet writer throws on a workbook
    due; and no error otherwise.  The status text is set exactly when the
    error state ends cleared. *)
Theorem MonthlyForm_error_state decode parseFromString TypeError_message writer
    (arrayBuffer : list Z) :
  let doc := parseFromString (sanitizeXML (decode arrayBuffer)) in
  let trace :=
    MonthlyForm.handleSubmit decode parseFromString TypeError_message writer
      (Some (resolved arrayBuffer)) in
  last_setError trace =
    Some
      match document_getElementsByTagName doc (str "parsererror") with
      | e :: _ =>
          Some (str "Erro ao processar o arquivo: "
                ++ str "XML parsing error: " ++ textContent e)
      | [] =>
          if patients_have_lists doc then
            match document_records doc with
            | [] =>
                Some (str "Nenhum dado v" ++ [225]
                      ++ str "lido encontrado no arquivo XML.")
            | _ :: _ =>
                match first_writer_error writer
                        (month_books (document_records doc)) with
                | Some message =>
                    Some (str "Erro ao processar o arquivo: " ++ message)
                | None => None
                end
            end
          else
            Some (str "Erro ao processar o arquivo: "
                  ++ str "Erro durante o processamento do XML: "
                  ++ TypeError_message)
      end /\
  (last_setConversionStatus trace <> None <-> last_setError trace = Some None).
Proof.
  cbv zeta.
  set (doc := parseFromString (sanitizeXML (decode arrayBuffer))).
  pose proof (Monthly_parseXML_eq parseFromString (decode arrayBuffer)) as P.
  fold doc in P.
  destruct (document_getElementsByTagName doc (str "parsererror")).
  - destruct (patients_have_lists doc).
    + destruct (document_records doc) as [|r rs] eqn:R.
      * unfold MonthlyForm.handleSubmit. rewrite P. simpl.
        split; [reflexivity|]. split; [congruence | discriminate].
      * rewrite (MonthlyForm_handleSubmit_records _ _ _ _ _ r rs P).
        rewrite last_setError_app, last_setConversionStatus_app,
          last_setError_writes, last_setConversionStatus_writes.
        destruct (first_writer_error writer (month_books (r :: rs))); simpl;
          (split; [reflexivity|]); split;
          try congruence; try discriminate; reflexivity.
    + unfold MonthlyForm.handleSubmit. rewrite P. simpl.
      split; [reflexivity|]. split; [congruence | discriminate].
  - unfold MonthlyForm.handleSubmit. rewrite P. simpl.
    split; [reflexivity|]. split; [congruence | discriminate].
Qed.

(** The single-workbook handler on a file that was read. *)
Lemma SingleWorkbookForm_handleSubmit_eq decode parseFromString
    TypeError_message writer (result : list Z) :
  document_getElementsByTagName (parseFromString (sanitizeXML (decode result)))
    (str "parsererror") = [] ->
  SingleWorkbookForm.handleSubmit decode parseFromString TypeError_message
    writer (Some (onload result))
  = (if patients_have_lists (parseFromString (sanitizeXML (decode result)))
     then []
     else [setError
             (Some (str "Erro durante o processamento do XML: "
                    ++ TypeError_message))])
    ++ setPartialData
         (fst (processElement (parseFromString (sanitizeXML (decode result))) []))
    :: match fst (processElement
                    (parseFromString (sanitizeXML (decode result))) []) with
       | _ :: _ =>
           match writer (str "cirurgias.xlsx")
                   (fst (processElement
                           (parseFromString (sanitizeXML (decode result))) []))
           with
           | None =>
               [writeFile (str "cirurgias.xlsx") (str "Cirurgias")
                  (fst (processElement
                          (parseFromString (sanitizeXML (decode result))) []));
                setError None]
           | Some message =>
               [setError (Some (str "Erro ao processar o arquivo: " ++ message))]
           end
       | [] =>
           [setError
              (Some (str "Nenhum dado valido encontrado no arquivo XML."))]
       end.
Proof.
  intros PE. unfold SingleWorkbookForm.handleSubmit. cbv zeta.
  rewrite SingleWorkbook_parseXML_eq, PE.
  unfold SingleWorkbookForm.convertToExcel.
  destruct (patients_have_lists _);
    destruct (fst (processElement _ [])) as [|r rs]; try reflexivity;
    destruct (writer (str "cirurgias.xlsx") (r :: rs)); reflexivity.
Qed.

(** X17.  In the single-workbook form the processing error that [parseXML]
    hands to [setError] never stays in the error state.  When the parser
    reported no error, the records collected are a prefix of the records of
    the document; if there is at least one, the workbook [cirurgias.xlsx] is
    written with them and the error state is cleared, unless the spreadsheet
    writer throws, in which case nothing is written and the error state
    holds the writer's message; if there is none, the no-data text is
    shown. *)
Theorem SingleWorkbookForm_partial_workbook decode parseFromString
    TypeError_message writer (result : list Z) :
  let doc := parseFromString (sanitizeXML (decode result)) in
  let trace :=
    SingleWorkbookForm.handleSubmit decode parseFromString TypeError_message
      writer (Some (onload result)) in
  let partial := fst (processElement doc []) in
  document_getElementsByTagName doc (str "parsererror") = [] ->
  (exists rest, document_records doc = partial ++ rest) /\
  files_written trace =
    match partial with
    | [] => []
    | _ :: _ =>
        match writer (str "cirurgias.xlsx") partial with
        | None => [(str "cirurgias.xlsx", partial)]
        | Some _ => []
        end
    end /\
  last_setError trace =
    Some match partial with
         | [] => Some (str "Nenhum dado valido encontrado no arquivo XML.")
         | _ :: _ =>
             match writer (str "cirurgias.xlsx") partial with
             | None => None
             | Some message =>
                 Some (str "Erro ao processar o arquivo: " ++ message)
             end
         end.
Proof.
  cbv zeta. intros PE.
  split; [apply refines_processElement|].
  rewrite (SingleWorkbookForm_handleSubmit_eq _ _ _ _ _ PE).
  rewrite files_written_app, last_setError_app.
  destruct (patients_have_lists _);
    destruct (fst (processElement _ [])) as [|r rs]; try (split; reflexivity);
    destruct (writer (str "cirurgias.xlsx") (r :: rs)); split; reflexivity.
Qed.

Lemma SingleWorkbookForm_partial_workbook_witness :
  let trace :=
    SingleWorkbookForm.handleSubmit (fun _ => str "<x/>")
      (fun _ => doc_missing_list) (str "undefined") (fun _ _ => None)
      (Some (onload [])) in
  (exists rest,
     document_records doc_missing_list = [record_before_missing_list] ++ rest) /\
  files_written trace = [(str "cirurgias.xlsx", [record_before_missing_list])] /\
  last_setError trace = Some None.
Proof.
  apply (SingleWorkbookForm_partial_workbook (fun _ => str "<x/>")
           (fun _ => doc_missing_list) (str "undefined") (fun _ _ => None) []).
  reflexivity.
Defined.
